(** * super_adventure: tile extraction, deduplication and map export

    A shallow embedding of [tools/reconstruct_map.py] and
    [tools/create_tileset.py], and the properties of the tile pipeline
    (deduplication, first-occurrence numbering, atlas layout, exported
    documents) proved about it.

    Python integers that occur in the two tools are all non-negative
    (sizes, indices, loop counters), so they are embedded as [nat];
    [//] and [%] are [Nat.div] and [Nat.modulo], and a division whose
    divisor can be zero is guarded explicitly (Python raises there).
    A raised exception is [None] in the [option] monad.

    The tools are embedded over an arbitrary digest function; where a
    property depends on what [hashlib.md5] computes, it is instantiated
    with [Hashlib.md5], MD5 as RFC 1321 defines it. *)

From Stdlib Require Import Strings.Byte.
From stdpp Require Import gmap strings list fin_maps.

#[global] Instance byte_eq_dec : EqDecision byte := Byte.byte_eq_dec.
#[global] Instance byte_countable : Countable byte :=
  inj_countable Byte.to_N Byte.of_N Byte.of_to_N.

(** Python [bytes]. *)
Abbreviation bytes := (list byte).

(** ** Loops *)

(** [for i in range(n): s = body(s, i)] *)
Definition for_range {S : Type} (n : nat) (body : S → nat → S) (s : S) : S :=
  fold_left body (seq 0 n) s.

(** A loop whose body may raise: the first exception leaves the loop. *)
Fixpoint for_each_raising {S A : Type} (body : S → A → option S)
    (l : list A) (s : S) : option S :=
  match l with
  | [] => Some s
  | a :: l' => s' ← body s a; for_each_raising body l' s'
  end.

Definition for_range_raising {S : Type} (n : nat) (body : S → nat → option S)
    (s : S) : option S :=
  for_each_raising body (seq 0 n) s.

(** [enumerate(l)] *)
Definition enumerate {A : Type} (l : list A) : list (nat * A) :=
  zip (seq 0 (length l)) l.

(** ** Pillow images and numpy arrays

    An image is its size and its pixel store. Reading outside the size
    of an image yields the all-zero pixel of its mode, which is what
    [Image.crop] does for a box that leaves the image. *)
Module PIL.

Class Mode (P : Type) := {
  zero : P;                 (* every band 0 *)
  raw : P → bytes;          (* the bytes of one pixel, band by band *)
}.

Record Image (P : Type) := mkImage {
  width : nat;
  height : nat;
  load : nat → nat → P;
}.
Arguments mkImage {P} _ _ _.
Arguments width {P} _.
Arguments height {P} _.
Arguments load {P} _ _ _.

(** [im.size] *)
Definition image_size {P} (im : Image P) : nat * nat := (width im, height im).

Definition getpixel {P} `{Mode P} (im : Image P) (x y : nat) : P :=
  if (x <? width im) && (y <? height im) then load im x y else zero.

(** [Image.new(mode, (w, h), color)] *)
Definition new {P} (sz : nat * nat) (color : P) : Image P :=
  mkImage sz.1 sz.2 (λ _ _, color).

(** [im.crop((left, upper, right, lower))] *)
Definition crop {P} `{Mode P} (im : Image P) (box : nat * nat * nat * nat)
    : Image P :=
  let '(x0, y0, x1, y1) := box in
  mkImage (x1 - x0) (y1 - y0)
          (λ x y, getpixel im (x0 + x) (y0 + y)).

(** [dst.paste(src, (px, py))] without a mask: the pixels of [src]
    overwrite those of [dst] in the box of [src]'s size at [(px, py)]. *)
Definition paste {P} (dst src : Image P) (pos : nat * nat) : Image P :=
  let '(px, py) := pos in
  mkImage (width dst) (height dst)
    (λ x y, if (px <=? x) && (x <? px + width src)
               && (py <=? y) && (y <? py + height src)
            then load src (x - px) (y - py)
            else load dst x y).

(** [im.convert(mode)], pixel by pixel. *)
Definition convert {P Q} (f : P → Q) (im : Image P) : Image Q :=
  mkImage (width im) (height im) (λ x y, f (load im x y)).

(** The rows of an image, top to bottom, each left to right. *)
Definition rows {P} (im : Image P) : list (list P) :=
  map (λ y, map (λ x, load im x y) (seq 0 (width im))) (seq 0 (height im)).

(** [im.tobytes()]: the raw pixel data, row-major. *)
Definition tobytes {P} `{Mode P} (im : Image P) : bytes :=
  flat_map (flat_map raw) (rows im).

(** 8-bit RGBA and RGB pixels. *)
Record rgba := RGBA { red : byte; green : byte; blue : byte; alpha : byte }.
Record rgb := RGB { r8 : byte; g8 : byte; b8 : byte }.

#[global] Instance rgba_mode : Mode rgba :=
  {| zero := RGBA x00 x00 x00 x00;
     raw := λ p, [red p; green p; blue p; alpha p] |}.
#[global] Instance rgb_mode : Mode rgb :=
  {| zero := RGB x00 x00 x00;
     raw := λ p, [r8 p; g8 p; b8 p] |}.

End PIL.

Module Numpy.
Import PIL.

(** An array of shape (h, w, 4) and dtype uint8: rows of RGBA pixels. *)
Abbreviation ndarray := (list (list rgba)).

(** [np.array(image)] *)
Definition array (im : Image rgba) : ndarray := rows im.

(** [arr.tobytes()], C order: rows, then pixels, then bands. *)
Definition tobytes (a : ndarray) : bytes := flat_map (flat_map raw) a.

(** [Image.fromarray(arr)] *)
Definition fromarray (a : ndarray) : Image rgba :=
  mkImage (length (hd [] a)) (length a)
          (λ x y, nth x (nth y a []) zero).

(** [int(np.ceil(np.sqrt(n)))]. The square root of a double is
    correctly rounded, and for an integer below 2^52 that is not a
    perfect square it is never an integer, so the result is the exact
    integer ceiling of the square root. *)
Definition ceil_sqrt (n : nat) : nat :=
  let s := Nat.sqrt n in
  if s * s =? n then s else S s.

(** [int(np.ceil(n / d))] on Python integers: [n / d] raises
    ZeroDivisionError when [d] is 0; otherwise the quotient of two
    integers below 2^53 rounds to an integer only when it is one. *)
Definition ceil_div (n d : nat) : option nat :=
  if d =? 0 then None
  else Some (if n mod d =? 0 then n / d else S (n / d)).

End Numpy.


(** ** hashlib *)
Module Hashlib.

(** MD5 as RFC 1321 defines it, on 32-bit words held in [N]. *)
Definition word (n : N) : N := N.land n 0xffffffff.

Definition rotl (x s : N) : N :=
  word (N.lor (N.shiftl x s) (N.shiftr x (32 - s))).

Definition lnot32 (x : N) : N := N.lxor x 0xffffffff.

(** The [k] low bytes of [n], least significant first. *)
Definition le_bytes (k : nat) (n : N) : bytes :=
  map (λ i, default x00 (Byte.of_N (N.land (N.shiftr n (8 * N.of_nat i)) 0xff)))
      (seq 0 k).

Definition le_word (b : bytes) : N :=
  fold_right (λ c acc, (Byte.to_N c + 256 * acc)%N) 0%N b.

(** A list cut into consecutive pieces of length [k]. *)
Definition chunks {A} (k : nat) (l : list A) : list (list A) :=
  map (λ i, take k (drop (i * k) l)) (seq 0 (length l / k)).

(** [floor(2^32 * abs(sin(i + 1)))] *)
Definition T : list N :=
  [ 0xd76aa478; 0xe8c7b756; 0x242070db; 0xc1bdceee;
    0xf57c0faf; 0x4787c62a; 0xa8304613; 0xfd469501;
    0x698098d8; 0x8b44f7af; 0xffff5bb1; 0x895cd7be;
    0x6b901122; 0xfd987193; 0xa679438e; 0x49b40821;
    0xf61e2562; 0xc040b340; 0x265e5a51; 0xe9b6c7aa;
    0xd62f105d; 0x02441453; 0xd8a1e681; 0xe7d3fbc8;
    0x21e1cde6; 0xc33707d6; 0xf4d50d87; 0x455a14ed;
    0xa9e3e905; 0xfcefa3f8; 0x676f02d9; 0x8d2a4c8a;
    0xfffa3942; 0x8771f681; 0x6d9d6122; 0xfde5380c;
    0xa4beea44; 0x4bdecfa9; 0xf6bb4b60; 0xbebfbc70;
    0x289b7ec6; 0xeaa127fa; 0xd4ef3085; 0x04881d05;
    0xd9d4d039; 0xe6db99e5; 0x1fa27cf8; 0xc4ac5665;
    0xf4292244; 0x432aff97; 0xab9423a7; 0xfc93a039;
    0x655b59c3; 0x8f0ccc92; 0xffeff47d; 0x85845dd1;
    0x6fa87e4f; 0xfe2ce6e0; 0xa3014314; 0x4e0811a1;
    0xf7537e82; 0xbd3af235; 0x2ad7d2bb; 0xeb86d391 ]%N.

(** The rotation of each of the 64 operations. *)
Definition rotations : list N :=
  ([7; 12; 17; 22; 7; 12; 17; 22; 7; 12; 17; 22; 7; 12; 17; 22]
   ++ [5; 9; 14; 20; 5; 9; 14; 20; 5; 9; 14; 20; 5; 9; 14; 20]
   ++ [4; 11; 16; 23; 4; 11; 16; 23; 4; 11; 16; 23; 4; 11; 16; 23]
   ++ [6; 10; 15; 21; 6; 10; 15; 21; 6; 10; 15; 21; 6; 10; 15; 21])%N.

(** Operation [i] of the four rounds on the words [X] of a block. *)
Definition operation (X : list N) (st : N * N * N * N) (i : nat)
    : N * N * N * N :=
  let '(a, b, c, d) := st in
  let '(f, k) :=
    if i <? 16 then (N.lor (N.land b c) (N.land (lnot32 b) d), i)
    else if i <? 32 then
      (N.lor (N.land b d) (N.land c (lnot32 d)), (5 * i + 1) mod 16)
    else if i <? 48 then (N.lxor (N.lxor b c) d, (3 * i + 5) mod 16)
    else (N.lxor c (N.lor b (lnot32 d)), (7 * i) mod 16) in
  let t := word (a + f + nth k X 0 + nth i T 0)%N in
  (d, word (b + rotl t (nth i rotations 0))%N, b, c).

Definition process_block (st : N * N * N * N) (block : bytes)
    : N * N * N * N :=
  let X := le_word <$> chunks 4 block in
  let '(a, b, c, d) := st in
  let '(a', b', c', d') := fold_left (operation X) (seq 0 64) st in
  (word (a + a'), word (b + b'), word (c + c'), word (d + d'))%N.

(** A one bit, zero bits up to 56 modulo 64 bytes, and the length in
    bits as 64 bits, low byte first. *)
Definition pad (data : bytes) : bytes :=
  let n := length data in
  data ++ [x80] ++ replicate ((119 - n mod 64) mod 64) x00
       ++ le_bytes 8 (8 * N.of_nat n).

Definition md5_digest (data : bytes) : bytes :=
  let '(a, b, c, d) :=
    fold_left process_block (chunks 64 (pad data))
      (0x67452301, 0xefcdab89, 0x98badcfe, 0x10325476)%N in
  le_bytes 4 a ++ le_bytes 4 b ++ le_bytes 4 c ++ le_bytes 4 d.

Definition hex_digit (n : N) : Ascii.ascii :=
  nth (N.to_nat n) (String.list_ascii_of_string "0123456789abcdef") (Ascii.ascii_of_byte x30).

(** [bytes.hex()] *)
Definition hex (b : bytes) : string :=
  String.string_of_list_ascii
    (flat_map (λ c, [hex_digit (Byte.to_N c / 16); hex_digit (Byte.to_N c mod 16)]) b).

(** [hashlib.md5(data).hexdigest()] *)
Definition md5 (data : bytes) : string := hex (md5_digest data).

End Hashlib.


(** ** tools/reconstruct_map.py *)
Module ReconstructMap.
Import PIL Numpy.

(** Configuration *)
Definition TILE_SIZE : nat := 16.
Definition SCREEN_WIDTH_TILES : nat := 16.
Definition SCREEN_HEIGHT_TILES : nat := 11.
Definition SCREENS_WIDE : nat := 16.
Definition SCREENS_TALL : nat := 8.

(** Extract a single tile from an image at the given pixel coordinates. *)
Definition extract_tile (image : Image rgba) (x y : nat) : ndarray :=
  let tile := crop image (x, y, x + TILE_SIZE, y + TILE_SIZE) in
  array tile.

(** Create a hash for a tile to identify unique tiles. *)
Definition tile_hash (tile : ndarray) : bytes := Numpy.tobytes tile.

(** The body of the two nested loops of [extract_unique_tiles_from_map];
    the state is the pair [(tile_to_id, unique_tiles)]. *)
Definition scan_cell (map_image : Image rgba)
    (st : gmap bytes nat * list ndarray) (tx ty : nat)
    : gmap bytes nat * list ndarray :=
  let '(tile_to_id, unique_tiles) := st in
  let '(px, py) := (tx * TILE_SIZE, ty * TILE_SIZE) in
  let tile := extract_tile map_image px py in
  let h := tile_hash tile in
  match tile_to_id !! h with
  | None =>
      let tile_id := length unique_tiles in
      (<[h := tile_id]> tile_to_id, unique_tiles ++ [tile])
  | Some _ => (tile_to_id, unique_tiles)
  end.

(** Extract all unique tiles from the overworld map. Returns a mapping of
    tile hash -> tile ID and a list of tile arrays. *)
Definition extract_unique_tiles_from_map (map_image : Image rgba)
    : gmap bytes nat * list ndarray :=
  let '(width, height) := image_size map_image in
  let tiles_x := width / TILE_SIZE in
  let tiles_y := height / TILE_SIZE in
  for_range tiles_y (λ st ty,
    for_range tiles_x (λ st tx, scan_cell map_image st tx ty) st)
    (∅, []).

(** Build a 2D array of tile IDs representing the full map.
    [tile_to_id[h]] raises KeyError for a hash that is not in the table. *)
Definition build_tile_map (map_image : Image rgba)
    (tile_to_id : gmap bytes nat) : option (list (list nat)) :=
  let '(width, height) := image_size map_image in
  let tiles_x := width / TILE_SIZE in
  let tiles_y := height / TILE_SIZE in
  for_range_raising tiles_y (λ tilemap ty,
    row ← for_range_raising tiles_x (λ row tx,
             let '(px, py) := (tx * TILE_SIZE, ty * TILE_SIZE) in
             let tile := extract_tile map_image px py in
             let h := tile_hash tile in
             tile_id ← tile_to_id !! h;
             (* Tiled uses 1-based tile IDs (0 means empty) *)
             Some (row ++ [tile_id + 1])) [];
    Some (tilemap ++ [row])) [].

(** Create an organized tileset image from unique tiles. Returns the
    image that is saved, and (tiles_per_row, total_rows). *)
Definition create_tileset_image (unique_tiles : list ndarray)
    : option (Image rgba * (nat * nat)) :=
  let num_tiles := length unique_tiles in
  (* Arrange in a square-ish grid *)
  let tiles_per_row := ceil_sqrt num_tiles in
  num_rows ← ceil_div num_tiles tiles_per_row;
  let out_width := tiles_per_row * TILE_SIZE in
  let out_height := num_rows * TILE_SIZE in
  let tileset_image :=
    new (out_width, out_height) (RGBA x00 x00 x00 x00) in
  let tileset_image :=
    fold_left (λ tileset_image '(idx, tile_array),
      let tx := idx mod tiles_per_row in
      let ty := idx / tiles_per_row in
      let '(px, py) := (tx * TILE_SIZE, ty * TILE_SIZE) in
      let tile_img := fromarray tile_array in
      paste tileset_image tile_img (px, py))
      (enumerate unique_tiles) tileset_image in
  Some (tileset_image, (tiles_per_row, num_rows)).

(** The Tiled document. *)
Record TiledLayer := {
  layer_data : list nat;
  layer_height : nat;
  layer_width : nat;
  layer_id : nat;
  layer_name : string;
  layer_opacity : nat;
  layer_type : string;
  layer_visible : bool;
  layer_x : nat;
  layer_y : nat;
}.

Record TiledTileset := {
  columns : nat;
  firstgid : nat;
  image : string;
  imageheight : nat;
  imagewidth : nat;
  margin : nat;
  tileset_name : string;
  spacing : nat;
  tilecount : nat;
  tileset_tileheight : nat;
  tileset_tilewidth : nat;
}.

Record TiledProperty := {
  prop_name : string;
  prop_type : string;
  prop_value : nat;
}.

Record TiledMap := {
  compressionlevel : Z;
  map_height : nat;
  map_width : nat;
  infinite : bool;
  orientation : string;
  renderorder : string;
  tiledversion : string;
  tileheight : nat;
  tilewidth : nat;
  map_type : string;
  version : string;
  layers : list TiledLayer;
  tilesets : list TiledTileset;
  properties : list TiledProperty;
}.

(** Generate a Tiled-compatible JSON tilemap: the document that is
    dumped. [tilemap[0]] raises IndexError on an empty tilemap and
    [num_tiles // tiles_per_row] ZeroDivisionError on zero columns. *)
Definition generate_tiled_json (tilemap : list (list nat))
    (tileset_path : string) (tiles_per_row num_tiles : nat)
    : option TiledMap :=
  row0 ← tilemap !! 0;
  let map_width := length row0 in
  let map_height := length tilemap in
  (* Flatten tilemap for Tiled format (row-major, 1D array) *)
  let flat_data := fold_left (λ flat_data row, flat_data ++ row) tilemap [] in
  _ ← guard (tiles_per_row ≠ 0);
  Some {|
    compressionlevel := (-1)%Z;
    map_height := map_height;
    map_width := map_width;
    infinite := false;
    orientation := "orthogonal";
    renderorder := "right-down";
    tiledversion := "1.10.0";
    tileheight := TILE_SIZE;
    tilewidth := TILE_SIZE;
    map_type := "map";
    version := "1.10";
    layers := [
      {| layer_data := flat_data;
         layer_height := map_height;
         layer_width := map_width;
         layer_id := 1;
         layer_name := "terrain";
         layer_opacity := 1;
         layer_type := "tilelayer";
         layer_visible := true;
         layer_x := 0;
         layer_y := 0 |} ];
    tilesets := [
      {| columns := tiles_per_row;
         firstgid := 1;
         image := tileset_path;
         imageheight := (num_tiles / tiles_per_row + 1) * TILE_SIZE;
         imagewidth := tiles_per_row * TILE_SIZE;
         margin := 0;
         tileset_name := "overworld_tiles";
         spacing := 0;
         tilecount := num_tiles;
         tileset_tileheight := TILE_SIZE;
         tileset_tilewidth := TILE_SIZE |} ];
    properties := [
      {| prop_name := "screen_width"; prop_type := "int";
         prop_value := SCREEN_WIDTH_TILES |};
      {| prop_name := "screen_height"; prop_type := "int";
         prop_value := SCREEN_HEIGHT_TILES |};
      {| prop_name := "screens_wide"; prop_type := "int";
         prop_value := SCREENS_WIDE |};
      {| prop_name := "screens_tall"; prop_type := "int";
         prop_value := SCREENS_TALL |} ];
  |}.

(** The screen metadata document. *)
Record Screen := {
  id : nat;
  grid_x : nat;
  grid_y : nat;
  tile_x : nat;
  tile_y : nat;
  pixel_x : nat;
  pixel_y : nat;
  width_tiles : nat;
  height_tiles : nat;
}.

Record Metadata := {
  tile_size : nat;
  screen_width_tiles : nat;
  screen_height_tiles : nat;
  screen_width_pixels : nat;
  screen_height_pixels : nat;
  total_screens_wide : nat;
  total_screens_tall : nat;
  total_screens : nat;
  screens : list Screen;
}.

(** Generate screen boundary metadata for game logic. *)
Definition generate_screen_metadata : Metadata :=
  let screens :=
    for_range SCREENS_TALL (λ screens sy,
      for_range SCREENS_WIDE (λ screens sx,
        let screen_id := sy * SCREENS_WIDE + sx in
        screens ++ [
          {| id := screen_id;
             grid_x := sx;
             grid_y := sy;
             tile_x := sx * SCREEN_WIDTH_TILES;
             tile_y := sy * SCREEN_HEIGHT_TILES;
             pixel_x := sx * SCREEN_WIDTH_TILES * TILE_SIZE;
             pixel_y := sy * SCREEN_HEIGHT_TILES * TILE_SIZE;
             width_tiles := SCREEN_WIDTH_TILES;
             height_tiles := SCREEN_HEIGHT_TILES |} ]) screens) [] in
  {| tile_size := TILE_SIZE;
     screen_width_tiles := SCREEN_WIDTH_TILES;
     screen_height_tiles := SCREEN_HEIGHT_TILES;
     screen_width_pixels := SCREEN_WIDTH_TILES * TILE_SIZE;
     screen_height_pixels := SCREEN_HEIGHT_TILES * TILE_SIZE;
     total_screens_wide := SCREENS_WIDE;
     total_screens_tall := SCREENS_TALL;
     total_screens := SCREENS_WIDE * SCREENS_TALL;
     screens := screens |}.

(** What a run writes: the tileset image, the Tiled document and the
    screen metadata (the map image is the already converted RGBA one). *)
Record Output := {
  tileset_png : Image rgba;
  overworld_json : TiledMap;
  screens_json : Metadata;
  unique_count : nat;
}.

Definition main (map_image : Image rgba) : option Output :=
  (* Extract unique tiles from the map itself *)
  let '(tile_to_id, unique_tiles) := extract_unique_tiles_from_map map_image in
  (* Build the tilemap *)
  tilemap ← build_tile_map map_image tile_to_id;
  (* Create organized tileset image *)
  '(tileset_image, (tiles_per_row, num_rows)) ← create_tileset_image unique_tiles;
  (* Generate Tiled JSON *)
  tiled ← generate_tiled_json tilemap "tileset.png" tiles_per_row
             (length unique_tiles);
  (* Generate screen metadata *)
  let metadata := generate_screen_metadata in
  (* the closing statistics read tilemap[0] *)
  _ ← tilemap !! 0;
  Some {| tileset_png := tileset_image;
          overworld_json := tiled;
          screens_json := metadata;
          unique_count := length unique_tiles |}.

End ReconstructMap.


(** ** tools/create_tileset.py *)
Module CreateTileset.
Import PIL.

(** Configuration *)
Definition TILE_SIZE : nat := 16.
Definition SCREEN_TILES_X : nat := 16.
Definition SCREEN_TILES_Y : nat := 11.
Definition SCREENS_X : nat := 16.
Definition SCREENS_Y : nat := 9.
Definition SEPARATOR_WIDTH : nat := 1.

(** Calculated values *)
Definition SCREEN_WIDTH_PX : nat := SCREEN_TILES_X * TILE_SIZE.
Definition SCREEN_HEIGHT_PX : nat := SCREEN_TILES_Y * TILE_SIZE.

(** Output configuration *)
Definition OUTPUT_TILES_PER_ROW : nat := 16.

(** Calculate the top-left pixel coordinate for a screen, accounting for
    separators. *)
Definition get_screen_pixel_origin (screen_x screen_y : nat) : nat * nat :=
  let px_x := screen_x * (SCREEN_WIDTH_PX + SEPARATOR_WIDTH) in
  let px_y := screen_y * (SCREEN_HEIGHT_PX + SEPARATOR_WIDTH) in
  (px_x, px_y).

(** What the run prints. *)
Inductive line :=
  | Loading
  | ImageSize (w h : nat)
  | ExpectedSize (w h : nat)
  | Warning
  | Extracting (sx sy : nat)
  | Processed (n : nat)
  | Found (n : nat)
  | Creating (w h cols rows : nat)
  | Saved.

Section with_source.
(** The source image is opened as it is, in whatever mode [P] the file
    has; [md5] is [hashlib.md5(..).hexdigest()], and [to_rgb] the
    conversion that pasting into the RGB output image applies. *)
Context {P : Type} `{Mode P}.
Variable md5 : bytes → string.
Variable to_rgb : P → rgb.

(** Extract a single 16x16 tile from the map. *)
Definition extract_tile (img : Image P) (screen_x screen_y tile_x tile_y : nat)
    : Image P :=
  let '(screen_origin_x, screen_origin_y) :=
    get_screen_pixel_origin screen_x screen_y in
  let tile_px_x := screen_origin_x + tile_x * TILE_SIZE in
  let tile_px_y := screen_origin_y + tile_y * TILE_SIZE in
  crop img (tile_px_x, tile_px_y, tile_px_x + TILE_SIZE, tile_px_y + TILE_SIZE).

(** Generate a hash of tile pixel data for deduplication. *)
Definition tile_hash (tile : Image P) : string := md5 (tobytes tile).

(** The loop state of [main]: [unique_tiles] (hash -> tile image),
    [tile_order] (first occurrence order) and [processed]. *)
Record scan := mkScan {
  unique_tiles : gmap string (Image P);
  tile_order : list string;
  processed : nat;
}.

Definition scan_cell (img : Image P) (st : scan)
    (screen_x screen_y tile_x tile_y : nat) : scan :=
  let tile := extract_tile img screen_x screen_y tile_x tile_y in
  let h := tile_hash tile in
  let st :=
    match unique_tiles st !! h with
    | None => mkScan (<[h := tile]> (unique_tiles st)) (tile_order st ++ [h])
                     (processed st)
    | Some _ => st
    end in
  mkScan (unique_tiles st) (tile_order st) (processed st + 1).

(** Extract all tiles and deduplicate. *)
Definition extract_all (img : Image P) : scan :=
  for_range SCREENS_Y (λ st screen_y,
    for_range SCREENS_X (λ st screen_x,
      for_range SCREEN_TILES_Y (λ st tile_y,
        for_range SCREEN_TILES_X (λ st tile_x,
          scan_cell img st screen_x screen_y tile_x tile_y) st) st) st)
    (mkScan ∅ [] 0).

Record Run := {
  stdout : list line;
  result : scan;
  output_img : option (Image rgb);
}.

Definition main (img : Image P) : Run :=
  let out := [Loading; ImageSize (width img) (height img)] in
  (* Verify dimensions *)
  let expected_width :=
    SCREENS_X * SCREEN_WIDTH_PX + (SCREENS_X - 1) * SEPARATOR_WIDTH in
  let expected_height :=
    SCREENS_Y * SCREEN_HEIGHT_PX + (SCREENS_Y - 1) * SEPARATOR_WIDTH in
  let out := out ++ [ExpectedSize expected_width expected_height] in
  let out :=
    if negb (width img =? expected_width) || negb (height img =? expected_height)
    then out ++ [Warning] else out in
  (* Extract all tiles and deduplicate *)
  let out := out ++ [Extracting SCREENS_X SCREENS_Y] in
  let st := extract_all img in
  let out := out ++ [Processed (processed st); Found (size (unique_tiles st))] in
  (* Create output tileset image *)
  let num_unique := size (unique_tiles st) in
  let rows := (num_unique + OUTPUT_TILES_PER_ROW - 1) / OUTPUT_TILES_PER_ROW in
  let output_width := OUTPUT_TILES_PER_ROW * TILE_SIZE in
  let output_height := rows * TILE_SIZE in
  let out := out ++ [Creating output_width output_height OUTPUT_TILES_PER_ROW rows] in
  let output_img := new (output_width, output_height) (RGB x00 x00 x00) in
  let output_img :=
    for_each_raising (λ output_img '(i, h),
      tile ← unique_tiles st !! h;
      let out_x := (i mod OUTPUT_TILES_PER_ROW) * TILE_SIZE in
      let out_y := (i / OUTPUT_TILES_PER_ROW) * TILE_SIZE in
      Some (paste output_img (convert to_rgb tile) (out_x, out_y)))
      (enumerate (tile_order st)) output_img in
  {| stdout := match output_img with Some _ => out ++ [Saved] | None => out end;
     result := st;
     output_img := output_img |}.

End with_source.
End CreateTileset.


(** ** Vocabulary of the properties *)

(** The cells of an [m] by [n] grid in raster order: rows top to
    bottom, each left to right; the cell [(x, y)] is at position
    [y * m + x]. *)
Definition grid (m n : nat) : list (nat * nat) :=
  flat_map (λ y, map (λ x, (x, y)) (seq 0 m)) (seq 0 n).

(** The raw bytes of the [n] by [n] square of an image whose top-left
    pixel is [(x, y)], read pixel by pixel, rows top to bottom; a pixel
    outside the image reads as zero. *)
Definition block_bytes {P} `{PIL.Mode P} (im : PIL.Image P) (n x y : nat) : bytes :=
  flat_map (λ dy,
    flat_map (λ dx, PIL.raw (PIL.getpixel im (x + dx) (y + dy))) (seq 0 n))
    (seq 0 n).

Section dedup_defs.
Context `{Countable K} {T : Type}.
Variable fp : T → K.

(** One step of first-occurrence numbering over a stream of blocks [t]
    with fingerprint [fp t]: the shape shared by the loop bodies of the
    two tools. *)
Definition dedup_step (st : gmap K nat * list T) (t : T)
    : gmap K nat * list T :=
  match st.1 !! fp t with
  | None => (<[fp t := length st.2]> st.1, st.2 ++ [t])
  | Some _ => st
  end.

Definition dedup (l : list T) : gmap K nat * list T :=
  fold_left dedup_step l (∅, []).

(** [t] is at position [p] of the stream and no earlier block has its
    fingerprint. *)
Definition first_at (l : list T) (p : nat) (t : T) : Prop :=
  l !! p = Some t ∧ ∀ q u, q < p → l !! q = Some u → fp u ≠ fp t.

Record dedup_inv (l : list T) (st : gmap K nat * list T) : Prop := {
  inv_table : ∀ k i, st.1 !! k = Some i ↔ (fp <$> st.2) !! i = Some k;
  inv_seen : ∀ t, t ∈ l → is_Some (st.1 !! fp t);
  inv_first : ∀ i t, st.2 !! i = Some t → ∃ p, first_at l p t;
  inv_order : ∀ i1 i2 t1 t2 p1 p2,
    st.2 !! i1 = Some t1 → st.2 !! i2 = Some t2 →
    first_at l p1 t1 → first_at l p2 t2 → i1 < i2 → p1 < p2;
}.
End dedup_defs.

Module ReconstructMapSpec.
Import PIL Numpy ReconstructMap.

(** The size of the tile grid that the two scans of an image cover. *)
Definition tiles_x (map_image : Image rgba) : nat := width map_image / TILE_SIZE.
Definition tiles_y (map_image : Image rgba) : nat := height map_image / TILE_SIZE.

(** The pixel block of the grid cell [c = (tx, ty)]. *)
Definition cell_tile (map_image : Image rgba) (c : nat * nat) : ndarray :=
  extract_tile map_image (c.1 * TILE_SIZE) (c.2 * TILE_SIZE).

(** The blocks of all grid cells, in raster order. *)
Definition cell_tiles (map_image : Image rgba) : list ndarray :=
  cell_tile map_image <$> grid (tiles_x map_image) (tiles_y map_image).

(** An array has [h] rows of [w] pixels. *)
Definition shape (h w : nat) (a : ndarray) : Prop :=
  length a = h ∧ Forall (λ row, length row = w) a.

(** The body of the paste loop of [create_tileset_image], for [c] tiles
    per row. *)
Definition paste_tile (c : nat) (tileset_image : Image rgba)
    (it : nat * ndarray) : Image rgba :=
  let '(idx, tile_array) := it in
  let tx := idx mod c in
  let ty := idx / c in
  let '(px, py) := (tx * TILE_SIZE, ty * TILE_SIZE) in
  let tile_img := fromarray tile_array in
  paste tileset_image tile_img (px, py).

(** The record of the screen at grid position [c = (sx, sy)]. *)
Definition screen_record (c : nat * nat) : Screen :=
  {| id := c.2 * SCREENS_WIDE + c.1;
     grid_x := c.1;
     grid_y := c.2;
     tile_x := c.1 * SCREEN_WIDTH_TILES;
     tile_y := c.2 * SCREEN_HEIGHT_TILES;
     pixel_x := c.1 * SCREEN_WIDTH_TILES * TILE_SIZE;
     pixel_y := c.2 * SCREEN_HEIGHT_TILES * TILE_SIZE;
     width_tiles := SCREEN_WIDTH_TILES;
     height_tiles := SCREEN_HEIGHT_TILES |}.

End ReconstructMapSpec.

Module CreateTilesetSpec.
Import PIL CreateTileset.

(** The cells [((screen_x, screen_y), (tile_x, tile_y))] in the order in
    which the four nested loops of [main] visit them. *)
Definition scan_cells : list ((nat * nat) * (nat * nat)) :=
  flat_map (λ s, map (λ t, (s, t)) (grid SCREEN_TILES_X SCREEN_TILES_Y))
           (grid SCREENS_X SCREENS_Y).

(** The crop box of [extract_tile] for a cell. *)
Definition tile_box (c : (nat * nat) * (nat * nat)) : nat * nat * nat * nat :=
  let x := c.1.1 * (SCREEN_TILES_X * TILE_SIZE + SEPARATOR_WIDTH) + c.2.1 * TILE_SIZE in
  let y := c.1.2 * (SCREEN_TILES_Y * TILE_SIZE + SEPARATOR_WIDTH) + c.2.2 * TILE_SIZE in
  (x, y, x + TILE_SIZE, y + TILE_SIZE).

(** A box lies within the bounds of an image. *)
Definition box_inside {P} (img : Image P) (box : nat * nat * nat * nat) : Prop :=
  let '(x0, y0, x1, y1) := box in x1 ≤ width img ∧ y1 ≤ height img.

(** The size that the configured geometry expects of the source. *)
Definition expected_size : nat * nat :=
  (SCREENS_X * SCREEN_WIDTH_PX + (SCREENS_X - 1) * SEPARATOR_WIDTH,
   SCREENS_Y * SCREEN_HEIGHT_PX + (SCREENS_Y - 1) * SEPARATOR_WIDTH).

(** Every tile of the scan is cropped from within the image. *)
Definition uses_actual_bounds {P} (img : Image P) : Prop :=
  Forall (λ c, box_inside img (tile_box c)) scan_cells.

Section with_source.
Context {P : Type} `{Mode P}.
Variable md5 : bytes → string.

Definition cell_tile (img : Image P) (c : (nat * nat) * (nat * nat)) : Image P :=
  extract_tile img c.1.1 c.1.2 c.2.1 c.2.2.

(** The tiles of all cells, in scan order. *)
Definition scan_tiles (img : Image P) : list (Image P) :=
  cell_tile img <$> scan_cells.

(** The loop body of [main] on a cell. *)
Definition scan_step (img : Image P) (st : scan) (c : (nat * nat) * (nat * nat))
    : scan :=
  scan_cell md5 img st c.1.1 c.1.2 c.2.1 c.2.2.

(** The atlas index of a fingerprint: its position in [tile_order],
    which is the [i] of the paste loop. *)
Definition atlas_index (st : @scan P) (h : string) : option nat :=
  fst <$> list_find (λ h', h' = h) (tile_order st).

(** The loop state against first-occurrence numbering of the stream of
    tiles under [tile_hash]. *)
Record sim (st : @scan P) (g : gmap string nat * list (Image P)) (n : nat) : Prop := {
  sim_order : tile_order st = tile_hash md5 <$> g.2;
  sim_tiles : ∀ h, unique_tiles st !! h = g.1 !! h ≫= (g.2 !!.);
  sim_processed : processed st = n;
}.

End with_source.
End CreateTilesetSpec.

(** ** Sample inputs *)
Module Samples.
Import PIL.

Definition red_px : rgba := RGBA xff x00 x00 xff.
Definition blue_px : rgba := RGBA x00 x00 xff xff.

(** Two tiles side by side: a red one and a blue one. *)
Definition two_tone : Image rgba :=
  mkImage 32 16 (λ x y, if x <? 16 then red_px else blue_px).

(** One solid red tile. *)
Definition solid : Image rgba := mkImage 16 16 (λ x y, red_px).

(** [two_tone] with three more columns of pixels, which no tile covers. *)
Definition two_tone_padded : Image rgba :=
  mkImage 35 16 (λ x y, if x <? 16 then red_px else blue_px).
Definition two_tone_padded' : Image rgba :=
  mkImage 35 16 (λ x y, if x <? 16 then red_px else if x <? 32 then blue_px else red_px).

(** A one-tile RGB image, far smaller than the configured map. *)
Definition tiny : Image rgb := mkImage 16 16 (λ x y, RGB xff x00 x00).

(** A cheap stand-in for the digest: the first byte, as a string. *)
Definition first_byte_digest (b : bytes) : string :=
  match b with
  | [] => EmptyString
  | c :: _ => String (Ascii.ascii_of_byte c) EmptyString
  end.

(** The RGB output conversion of an RGB source is the identity. *)
Definition keep_rgb (p : rgb) : rgb := p.

(** Three by two tiles, each with the same vertical stripes. *)
Definition striped : Image rgba :=
  mkImage 48 32 (λ x y, if x mod 16 <? 8 then red_px else blue_px).

(** Two 128-byte messages of a published MD5 collision: they have the
    same digest and differ in six bytes. *)
Definition collision_a : bytes :=
  [
    xd1; x31; xdd; x02; xc5; xe6; xee; xc4; x69; x3d; x9a; x06; x98; xaf; xf9; x5c;
    x2f; xca; xb5; x87; x12; x46; x7e; xab; x40; x04; x58; x3e; xb8; xfb; x7f; x89;
    x55; xad; x34; x06; x09; xf4; xb3; x02; x83; xe4; x88; x83; x25; x71; x41; x5a;
    x08; x51; x25; xe8; xf7; xcd; xc9; x9f; xd9; x1d; xbd; xf2; x80; x37; x3c; x5b;
    xd8; x82; x3e; x31; x56; x34; x8f; x5b; xae; x6d; xac; xd4; x36; xc9; x19; xc6;
    xdd; x53; xe2; xb4; x87; xda; x03; xfd; x02; x39; x63; x06; xd2; x48; xcd; xa0;
    xe9; x9f; x33; x42; x0f; x57; x7e; xe8; xce; x54; xb6; x70; x80; xa8; x0d; x1e;
    xc6; x98; x21; xbc; xb6; xa8; x83; x93; x96; xf9; x65; x2b; x6f; xf7; x2a; x70 ].

Definition collision_b : bytes :=
  [
    xd1; x31; xdd; x02; xc5; xe6; xee; xc4; x69; x3d; x9a; x06; x98; xaf; xf9; x5c;
    x2f; xca; xb5; x07; x12; x46; x7e; xab; x40; x04; x58; x3e; xb8; xfb; x7f; x89;
    x55; xad; x34; x06; x09; xf4; xb3; x02; x83; xe4; x88; x83; x25; xf1; x41; x5a;
    x08; x51; x25; xe8; xf7; xcd; xc9; x9f; xd9; x1d; xbd; x72; x80; x37; x3c; x5b;
    xd8; x82; x3e; x31; x56; x34; x8f; x5b; xae; x6d; xac; xd4; x36; xc9; x19; xc6;
    xdd; x53; xe2; x34; x87; xda; x03; xfd; x02; x39; x63; x06; xd2; x48; xcd; xa0;
    xe9; x9f; x33; x42; x0f; x57; x7e; xe8; xce; x54; xb6; x70; x80; x28; x0d; x1e;
    xc6; x98; x21; xbc; xb6; xa8; x83; x93; x96; xf9; x65; xab; x6f; xf7; x2a; x70 ].

(** An RGB map of the configured size whose first two tiles hold
    [collision_a] and [collision_b] as the first 128 bytes of their
    pixel data; every other byte of the image is zero. *)
Definition colliding : Image rgb :=
  mkImage 4111 1592 (λ x y,
    if (x <? 32) && (y <? 16) then
      let m := if x <? 16 then collision_a else collision_b in
      let k := (y * 16 + x mod 16) * 3 in
      RGB (nth k m x00) (nth (k + 1) m x00) (nth (k + 2) m x00)
    else RGB x00 x00 x00).

End Samples.

Module CreateTilesetPaste.
Import PIL CreateTileset CreateTilesetSpec.
(** The body of the paste loop of [main], over the dictionary [d]. *)
Definition paste_step {P} (to_rgb : P → rgb) (d : gmap string (Image P))
    (output_img : Image rgb) (it : nat * string) : option (Image rgb) :=
  let '(i, h) := it in
  tile ← d !! h;
  let out_x := (i mod OUTPUT_TILES_PER_ROW) * TILE_SIZE in
  let out_y := (i / OUTPUT_TILES_PER_ROW) * TILE_SIZE in
  Some (paste output_img (convert to_rgb tile) (out_x, out_y)).
End CreateTilesetPaste.

(** * Properties *)

(** ** Loops and grids *)

Lemma for_range_S {St} n (body : St → nat → St) s :
  for_range (S n) body s = body (for_range n body s) n.
Proof.
  unfold for_range. rewrite seq_S, fold_left_app. reflexivity.
Qed.

Lemma grid_S m n : grid m (S n) = grid m n ++ map (λ x, (x, n)) (seq 0 m).
Proof.
  unfold grid. rewrite seq_S, flat_map_app. simpl. by rewrite app_nil_r.
Qed.

Lemma length_grid m n : length (grid m n) = n * m.
Proof.
  induction n as [|n IH]; [done|].
  rewrite grid_S, length_app, IH, length_map, length_seq. lia.
Qed.

Lemma grid_lookup m n x y :
  x < m → y < n → grid m n !! (y * m + x) = Some (x, y).
Proof.
  intros Hx. induction n as [|n IH]; [lia|]. intros Hy.
  rewrite grid_S. destruct (decide (y = n)) as [->|].
  - rewrite lookup_app_r; rewrite length_grid; [|lia].
    replace (n * m + x - n * m) with x by lia.
    rewrite list_lookup_fmap, lookup_seq_lt by done. done.
  - rewrite lookup_app_l; [apply IH; lia|]. rewrite length_grid. nia.
Qed.

Lemma grid_lookup_inv m n p x y :
  grid m n !! p = Some (x, y) → x < m ∧ y < n ∧ p = y * m + x.
Proof.
  induction n as [|n IH]; [done|]. rewrite grid_S. intros Hp.
  apply lookup_app_Some in Hp as [Hp|[Hge Hp]].
  - apply IH in Hp. lia.
  - rewrite length_grid in Hge, Hp.
    rewrite list_lookup_fmap in Hp.
    destruct (seq 0 m !! (p - n * m)) as [x'|] eqn:E; [|done].
    apply lookup_seq in E as [-> ?]. simpl in Hp. simplify_eq. lia.
Qed.

Lemma elem_of_grid m n x y : (x, y) ∈ grid m n ↔ x < m ∧ y < n.
Proof.
  split.
  - intros [p Hp]%list_elem_of_lookup. apply grid_lookup_inv in Hp. lia.
  - intros [??]. apply list_elem_of_lookup. eexists. by apply grid_lookup.
Qed.

Lemma for_range_grid {St} m n (f : St → nat → nat → St) s :
  for_range n (λ s y, for_range m (λ s x, f s x y) s) s
  = fold_left (λ s c, f s c.1 c.2) (grid m n) s.
Proof.
  induction n as [|n IH]; [done|].
  rewrite for_range_S, IH, grid_S, fold_left_app.
  generalize (fold_left (λ s c, f s c.1 c.2) (grid m n) s). intros s'.
  unfold for_range. generalize (seq 0 m). intros l. revert s'.
  induction l as [|x l IHl]; intros s'; simpl; [done|]. apply IHl.
Qed.

Lemma fold_left_snoc_fmap {A B} (f : A → B) (l : list A) (acc : list B) :
  fold_left (λ acc a, acc ++ [f a]) l acc = acc ++ (f <$> l).
Proof.
  revert acc. induction l as [|a l IH]; intros acc; simpl.
  - by rewrite app_nil_r.
  - by rewrite IH, <- app_assoc.
Qed.

Lemma grid_positions (m n : nat) :
  (λ c, c.2 * m + c.1) <$> grid m n = seq 0 (n * m).
Proof.
  induction n as [|n IH]; [done|].
  rewrite grid_S, fmap_app, IH. simpl.
  replace (m + n * m) with (n * m + m) by lia. rewrite seq_app. f_equal.
  rewrite <- list_fmap_compose. simpl.
  apply list_eq. intros i. rewrite list_lookup_fmap.
  destruct (decide (i < m)).
  - by rewrite !lookup_seq_lt.
  - by rewrite !lookup_seq_ge by lia.
Qed.

Lemma for_each_raising_is_Some {St A} (f : St → A → option St) (l : list A) (s : St) :
  (∀ s a, a ∈ l → is_Some (f s a)) → is_Some (for_each_raising f l s).
Proof.
  revert s. induction l as [|a l IH]; intros s Hf; simpl; [by eexists|].
  destruct (Hf s a) as [s' ->]; [by left|]. simpl.
  apply IH. intros s'' b Hb. apply Hf. by right.
Qed.

Lemma elem_of_enumerate {A} (l : list A) (i : nat) (a : A) :
  (i, a) ∈ enumerate l → l !! i = Some a.
Proof.
  unfold enumerate. intros [j Hj]%list_elem_of_lookup.
  apply lookup_zip_with_Some in Hj as (i' & a' & [= -> ->] & Hi & Ha).
  by apply lookup_seq in Hi as [-> _].
Qed.

(** ** First-occurrence numbering *)

Section dedup_facts.
Context `{Countable K} {T : Type}.
Variable fp : T → K.
Implicit Types (l : list T) (t u : T) (st : gmap K nat * list T).

Lemma dedup_snoc l t : dedup fp (l ++ [t]) = dedup_step fp (dedup fp l) t.
Proof. unfold dedup. by rewrite fold_left_app. Qed.

Lemma first_at_lt l p t : first_at fp l p t → p < length l.
Proof. intros [Hp _]. by eapply lookup_lt_Some. Qed.

Lemma first_at_elem l p t : first_at fp l p t → t ∈ l.
Proof. intros [Hp _]. by eapply list_elem_of_lookup_2. Qed.

Lemma first_at_app_l l t p u :
  first_at fp l p u → first_at fp (l ++ [t]) p u.
Proof.
  intros [Hp Hq]. split.
  - by apply lookup_app_l_Some.
  - intros q v Hlt Hv. apply (Hq q v Hlt).
    rewrite lookup_app_l in Hv; [done|].
    apply lookup_lt_Some in Hp. lia.
Qed.

Lemma first_at_app_inv l t p u :
  first_at fp (l ++ [t]) p u →
  first_at fp l p u ∨ (p = length l ∧ u = t ∧ ∀ v, v ∈ l → fp v ≠ fp t).
Proof.
  intros [Hp Hq]. apply lookup_app_Some in Hp as [Hp|[Hge Hp]].
  - left. split; [done|]. intros q v Hlt Hv. apply (Hq q v Hlt).
    by apply lookup_app_l_Some.
  - right. apply list_lookup_singleton_Some in Hp as [Hp ->].
    assert (p = length l) as -> by lia. split_and!; [done..|].
    intros v [q Hv]%list_elem_of_lookup. apply (Hq q v).
    + by eapply lookup_lt_Some.
    + by apply lookup_app_l_Some.
Qed.

Lemma first_at_unique l p q t u :
  first_at fp l p t → first_at fp l q u → fp t = fp u → p = q.
Proof.
  intros [Hp Hp'] [Hq Hq'] Heq.
  destruct (Nat.lt_trichotomy p q) as [Hlt|[->|Hlt]]; [|done|].
  - by destruct (Hq' p t Hlt Hp).
  - by destruct (Hp' q u Hlt Hq).
Qed.


Lemma dedup_inv_nil : dedup_inv fp [] (dedup fp []).
Proof.
  split; simpl.
  - intros k i. by rewrite lookup_empty, lookup_nil.
  - by intros t ?%elem_of_nil.
  - intros i t. by rewrite lookup_nil.
  - intros i1 i2 t1 t2 p1 p2. by rewrite lookup_nil.
Qed.

Lemma dedup_inv_hit l st t i :
  dedup_inv fp l st → st.1 !! fp t = Some i → dedup_inv fp (l ++ [t]) st.
Proof.
  intros [Htab Hseen Hfirst Hord] Hi.
  assert (Hold : ∀ j u p, st.2 !! j = Some u →
            first_at fp (l ++ [t]) p u → first_at fp l p u).
  { intros j u p Hj [Hf|(-> & -> & Hno)]%first_at_app_inv; [done|].
    destruct (Hfirst j t Hj) as [q Hq].
    destruct (Hno t); [|done]. by eapply first_at_elem. }
  split.
  - done.
  - intros u [Hu| ->%list_elem_of_singleton]%elem_of_app; eauto.
  - intros j u Hj. destruct (Hfirst j u Hj) as [p Hp].
    exists p. by apply first_at_app_l.
  - intros i1 i2 t1 t2 p1 p2 H1 H2 Hp1 Hp2. eauto.
Qed.

Lemma dedup_inv_miss l st t :
  dedup_inv fp l st → st.1 !! fp t = None →
  dedup_inv fp (l ++ [t]) (<[fp t := length st.2]> st.1, st.2 ++ [t]).
Proof.
  intros [Htab Hseen Hfirst Hord] Hnone.
  assert (Hfresh : ∀ v, v ∈ l → fp v ≠ fp t).
  { intros v Hv Heq. destruct (Hseen v Hv) as [j Hj]. congruence. }
  assert (Hnew : first_at fp (l ++ [t]) (length l) t).
  { split; [by rewrite lookup_app_r, Nat.sub_diag by lia|].
    intros q u Hq Hu. rewrite lookup_app_l in Hu by done.
    apply Hfresh. by eapply list_elem_of_lookup_2. }
  assert (Hold : ∀ j u p, st.2 !! j = Some u →
            first_at fp (l ++ [t]) p u → first_at fp l p u).
  { intros j u p Hj Hp. destruct (Hfirst j u Hj) as [q Hq].
    rewrite <- (first_at_unique (l ++ [t]) q p u u); auto using first_at_app_l. }
  split; simpl.
  - intros k i. rewrite fmap_app. simpl. destruct (decide (fp t = k)) as [<-|Hne].
    + rewrite lookup_insert_eq. split.
      * intros [= <-]. rewrite lookup_app_r; rewrite length_fmap; [|lia].
        by rewrite Nat.sub_diag.
      * intros [Hi|[Hge Hi]]%lookup_app_Some.
        -- apply Htab in Hi. congruence.
        -- apply list_lookup_singleton_Some in Hi as [Hi _].
           rewrite length_fmap in Hge, Hi. f_equal. lia.
    + rewrite lookup_insert_ne by done. rewrite Htab. split.
      * apply lookup_app_l_Some.
      * intros [Hi|[Hge Hi]]%lookup_app_Some; [done|].
        apply list_lookup_singleton_Some in Hi as [_ ?]. done.
  - intros u [Hu| ->%list_elem_of_singleton]%elem_of_app.
    + destruct (decide (fp t = fp u)) as [->|Hne].
      * rewrite lookup_insert_eq. eauto.
      * rewrite lookup_insert_ne by done. eauto.
    + rewrite lookup_insert_eq. eauto.
  - intros j u [Hj|[Hge Hj]]%lookup_app_Some.
    + destruct (Hfirst j u Hj) as [p Hp]. exists p. by apply first_at_app_l.
    + apply list_lookup_singleton_Some in Hj as [_ <-]. eauto.
  - intros i1 i2 t1 t2 p1 p2 H1 H2 Hp1 Hp2 Hlt.
    apply lookup_app_Some in H2 as [H2|[Hge H2]].
    + assert (H1' : st.2 !! i1 = Some t1).
      { apply lookup_lt_Some in H2. rewrite lookup_app_l in H1; [done|lia]. }
      eauto.
    + apply list_lookup_singleton_Some in H2 as [Hi2 <-].
      assert (H1' : st.2 !! i1 = Some t1).
      { rewrite lookup_app_l in H1; [done|lia]. }
      rewrite (first_at_unique _ _ _ _ _ Hp2 Hnew eq_refl).
      eapply first_at_lt, Hold; eauto.
Qed.

Lemma dedup_invariant l : dedup_inv fp l (dedup fp l).
Proof.
  induction l as [|t l IH] using rev_ind; [apply dedup_inv_nil|].
  rewrite dedup_snoc. unfold dedup_step.
  destruct (_ !! fp t) as [i|] eqn:E.
  - by eapply dedup_inv_hit.
  - by apply dedup_inv_miss.
Qed.
End dedup_facts.

(** Consequences of the invariant for the state [st] reached on the
    stream [l]. *)
Section dedup_results.
Context `{Countable K} {T : Type}.
Variable fp : T → K.
Variables (l : list T) (st : gmap K nat * list T).
Hypothesis Hinv : dedup_inv fp l st.
Implicit Types (t u : T).

Lemma inv_id_lt k i : st.1 !! k = Some i → i < length st.2.
Proof.
  intros Hi%(inv_table _ _ _ Hinv). apply lookup_lt_Some in Hi.
  by rewrite length_fmap in Hi.
Qed.

Lemma inv_assigned t : t ∈ l → ∃ i, st.1 !! fp t = Some i ∧ i < length st.2.
Proof.
  intros Hin. destruct (inv_seen _ _ _ Hinv t Hin) as [i Hi].
  exists i. split; [done|]. by eapply inv_id_lt.
Qed.

Lemma inv_id_inj k1 k2 i : st.1 !! k1 = Some i → st.1 !! k2 = Some i → k1 = k2.
Proof.
  intros H1%(inv_table _ _ _ Hinv) H2%(inv_table _ _ _ Hinv). congruence.
Qed.


(** The block stored under an ID is the first block of the stream with
    that fingerprint. *)
Lemma inv_unique_first t i :
  st.1 !! fp t = Some i →
  ∃ u p, st.2 !! i = Some u ∧ fp u = fp t ∧ first_at fp l p u.
Proof.
  intros Hi. apply (inv_table _ _ _ Hinv) in Hi. rewrite list_lookup_fmap in Hi.
  destruct (st.2 !! i) as [u|] eqn:Hu; [|done].
  simpl in Hi. destruct (inv_first _ _ _ Hinv i u Hu) as [p Hp]. exists u, p.
  split_and!; [done|congruence|done].
Qed.


End dedup_results.

(** ** Arrays and their bytes *)

Lemma flat_map_inj_on {A B} (f : A → list B) (n : nat) (D : A → Prop) :
  (∀ a, D a → length (f a) = n) →
  (∀ a b, D a → D b → f a = f b → a = b) →
  ∀ l1 l2, Forall D l1 → Forall D l2 → length l1 = length l2 →
    flat_map f l1 = flat_map f l2 → l1 = l2.
Proof.
  intros Hlen Hinj l1. induction l1 as [|a l1 IH]; intros [|b l2] H1 H2 Hl Heq;
    simplify_eq/=; [done|].
  apply Forall_cons in H1 as [Ha H1]. apply Forall_cons in H2 as [Hb H2].
  apply app_inj_1 in Heq as [Hab Hrest]; [|by rewrite !Hlen].
  f_equal; [by apply Hinj|by apply IH].
Qed.

Lemma length_flat_map_const {A B} (f : A → list B) (n : nat) (l : list A) :
  (∀ a, length (f a) = n) → length (flat_map f l) = length l * n.
Proof.
  intros Hf. induction l as [|a l IH]; simpl; [done|].
  rewrite length_app, Hf, IH. lia.
Qed.

Module ReconstructMapFacts.
Import PIL Numpy ReconstructMap ReconstructMapSpec.

#[local] Arguments TILE_SIZE : simpl never.

Lemma TILE_SIZE_pos : 0 < TILE_SIZE.
Proof. unfold TILE_SIZE. lia. Qed.

Lemma raw_rgba_inj (p q : rgba) : raw p = raw q → p = q.
Proof. destruct p, q. simpl. by intros [= -> -> -> ->]. Qed.

Lemma row_bytes_inj (w : nat) (r1 r2 : list rgba) :
  length r1 = w → length r2 = w →
  flat_map raw r1 = flat_map raw r2 → r1 = r2.
Proof.
  intros H1 H2. apply (flat_map_inj_on raw 4 (λ _, True)); try done.
  - intros a b _ _. apply raw_rgba_inj.
  - by apply Forall_true.
  - by apply Forall_true.
  - congruence.
Qed.

(** Arrays of one shape with the same bytes are the same array. *)
Lemma tile_hash_inj (h w : nat) (a b : ndarray) :
  shape h w a → shape h w b → tile_hash a = tile_hash b → a = b.
Proof.
  intros [Ha1 Ha2] [Hb1 Hb2]. unfold tile_hash, Numpy.tobytes.
  apply (flat_map_inj_on (flat_map raw) (w * 4) (λ row, length row = w));
    try done; [|by eauto using row_bytes_inj|congruence].
  intros row <-. by apply length_flat_map_const.
Qed.

Lemma rows_lookup {P} (im : Image P) (x y : nat) :
  x < width im → y < height im →
  (rows im !! y) ≫= (.!! x) = Some (load im x y).
Proof.
  intros Hx Hy. unfold rows.
  rewrite list_lookup_fmap, lookup_seq_lt by done. simpl.
  by rewrite list_lookup_fmap, lookup_seq_lt.
Qed.

Lemma shape_rows (im : Image rgba) : shape (height im) (width im) (rows im).
Proof.
  unfold shape, rows. split; [by rewrite length_map, length_seq|].
  apply Forall_forall. intros row [y [-> _]]%list_elem_of_fmap.
  by rewrite length_map, length_seq.
Qed.

(** The pixels of an extracted tile. *)
Lemma extract_tile_eq (image : Image rgba) (x y : nat) :
  extract_tile image x y =
  map (λ j, map (λ i, getpixel image (x + i) (y + j)) (seq 0 TILE_SIZE))
      (seq 0 TILE_SIZE).
Proof.
  unfold extract_tile, array, rows. simpl.
  replace (x + TILE_SIZE - x) with TILE_SIZE by lia.
  replace (y + TILE_SIZE - y) with TILE_SIZE by lia. done.
Qed.

Lemma shape_extract_tile (image : Image rgba) (x y : nat) :
  shape TILE_SIZE TILE_SIZE (extract_tile image x y).
Proof.
  rewrite extract_tile_eq. split; [by rewrite length_map, length_seq|].
  apply Forall_forall. intros row [j [-> _]]%list_elem_of_fmap.
  by rewrite length_map, length_seq.
Qed.

Lemma shape_cell_tile (map_image : Image rgba) (c : nat * nat) :
  shape TILE_SIZE TILE_SIZE (cell_tile map_image c).
Proof. apply shape_extract_tile. Qed.

Lemma cell_tiles_lookup (map_image : Image rgba) (tx ty : nat) :
  tx < tiles_x map_image → ty < tiles_y map_image →
  cell_tiles map_image !! (ty * tiles_x map_image + tx)
  = Some (cell_tile map_image (tx, ty)).
Proof.
  intros Hx Hy. unfold cell_tiles.
  by rewrite list_lookup_fmap, grid_lookup.
Qed.

Lemma cell_tile_elem (map_image : Image rgba) (tx ty : nat) :
  tx < tiles_x map_image → ty < tiles_y map_image →
  cell_tile map_image (tx, ty) ∈ cell_tiles map_image.
Proof.
  intros Hx Hy. eapply list_elem_of_lookup_2. by apply cell_tiles_lookup.
Qed.

Lemma cell_tiles_shape (map_image : Image rgba) (t : ndarray) :
  t ∈ cell_tiles map_image → shape TILE_SIZE TILE_SIZE t.
Proof. intros [c [-> _]]%list_elem_of_fmap. apply shape_cell_tile. Qed.

(** The scan of [extract_unique_tiles_from_map] is first-occurrence
    numbering of the raster stream of cell blocks under [tile_hash]. *)
Lemma extract_unique_tiles_dedup (map_image : Image rgba) :
  extract_unique_tiles_from_map map_image
  = dedup tile_hash (cell_tiles map_image).
Proof.
  unfold extract_unique_tiles_from_map, image_size.
  rewrite (for_range_grid _ _ (scan_cell map_image)).
  unfold dedup, cell_tiles, tiles_x, tiles_y.
  generalize (grid (width map_image / TILE_SIZE) (height map_image / TILE_SIZE)).
  intros l. generalize (∅ : gmap bytes nat, [] : list ndarray).
  induction l as [|c l IH]; intros st; [done|]. simpl. rewrite <- IH.
  f_equal. destruct st as [m us]. unfold scan_cell, dedup_step, cell_tile. simpl.
  by destruct (m !! _).
Qed.


(** *** Deduplication in [extract_unique_tiles_from_map] *)

Lemma cell_id_assigned (map_image : Image rgba) (tx ty : nat) :
  tx < tiles_x map_image → ty < tiles_y map_image →
  ∃ i, (extract_unique_tiles_from_map map_image).1
         !! tile_hash (cell_tile map_image (tx, ty)) = Some i
       ∧ i < length (extract_unique_tiles_from_map map_image).2.
Proof.
  intros Hx Hy. rewrite extract_unique_tiles_dedup.
  eapply inv_assigned; [apply dedup_invariant|]. by apply cell_tile_elem.
Qed.

(** The unique tile stored under a cell's ID is that cell's block. *)
Lemma unique_tile_of_cell (map_image : Image rgba) (tx ty i : nat) :
  tx < tiles_x map_image → ty < tiles_y map_image →
  (extract_unique_tiles_from_map map_image).1
    !! tile_hash (cell_tile map_image (tx, ty)) = Some i →
  (extract_unique_tiles_from_map map_image).2 !! i
  = Some (cell_tile map_image (tx, ty)).
Proof.
  intros Hx Hy. rewrite extract_unique_tiles_dedup. intros Hi.
  destruct (inv_unique_first tile_hash _ _ (dedup_invariant _ _) _ i Hi)
    as (u & p & Hu & Heq & Hp).
  rewrite Hu. f_equal.
  apply (tile_hash_inj TILE_SIZE TILE_SIZE); [|apply shape_cell_tile|done].
  eapply cell_tiles_shape, first_at_elem, Hp.
Qed.

Lemma unique_tiles_shape (map_image : Image rgba) :
  Forall (shape TILE_SIZE TILE_SIZE) (extract_unique_tiles_from_map map_image).2.
Proof.
  rewrite extract_unique_tiles_dedup. apply Forall_lookup. intros i t Hi.
  destruct (dedup_invariant tile_hash (cell_tiles map_image)) as [_ _ Hfirst _].
  destruct (Hfirst i t Hi) as [p Hp].
  eapply cell_tiles_shape, first_at_elem, Hp.
Qed.

(** *** The tilemap *)

Lemma for_each_raising_collect {A B} (g : A → option B) (l : list A) (acc : list B) :
  for_each_raising (λ acc a, b ← g a; Some (acc ++ [b])) l acc
  = (acc ++.) <$> mapM g l.
Proof.
  revert acc. induction l as [|a l IH]; intros acc; simpl.
  - by rewrite app_nil_r.
  - destruct (g a) as [b|]; simpl; [|done]. rewrite IH.
    destruct (mapM g l) as [k|]; simpl; [|done]. by rewrite <- app_assoc.
Qed.

Lemma for_each_raising_ext {St A} (f g : St → A → option St) (l : list A) (s : St) :
  (∀ s a, f s a = g s a) → for_each_raising f l s = for_each_raising g l s.
Proof.
  intros Hfg. revert s. induction l as [|a l IH]; intros s; simpl; [done|].
  rewrite Hfg. destruct (g s a); simpl; [apply IH|done].
Qed.

Lemma fmap_app_nil {A} (o : option (list A)) : ([] ++.) <$> o = o.
Proof. by destruct o. Qed.

Lemma mapM_total {A B} (g : A → option B) (f : A → B) (l : list A) :
  (∀ a, a ∈ l → g a = Some (f a)) → mapM g l = Some (f <$> l).
Proof.
  intros Hg. apply mapM_Some. apply Forall2_fmap_r, Forall_Forall2_diag.
  by apply Forall_forall.
Qed.

Lemma build_tile_map_eq (map_image : Image rgba) (tile_to_id : gmap bytes nat) :
  build_tile_map map_image tile_to_id
  = mapM (λ ty, mapM (λ tx,
            tile_id ← tile_to_id !! tile_hash (cell_tile map_image (tx, ty));
            Some (tile_id + 1)) (seq 0 (tiles_x map_image)))
         (seq 0 (tiles_y map_image)).
Proof.
  unfold build_tile_map, image_size, for_range_raising, tiles_x, tiles_y.
  set (inner := λ ty, mapM (λ tx, tile_id ← tile_to_id
         !! tile_hash (cell_tile map_image (tx, ty)); Some (tile_id + 1))
         (seq 0 (width map_image / TILE_SIZE))).
  rewrite <- (fmap_app_nil (mapM inner _)).
  rewrite <- (for_each_raising_collect inner).
  apply for_each_raising_ext. intros tilemap ty. f_equal.
  unfold inner. rewrite <- (fmap_app_nil (mapM _ _)).
  rewrite <- for_each_raising_collect.
  apply for_each_raising_ext. intros row tx. unfold cell_tile. simpl.
  by destruct (tile_to_id !! _).
Qed.

(** With the table of the same image every lookup succeeds, and the
    tilemap holds ID + 1 at every cell. *)
Lemma build_tile_map_total (map_image : Image rgba) :
  let tile_to_id := (extract_unique_tiles_from_map map_image).1 in
  build_tile_map map_image tile_to_id
  = Some ((λ ty, (λ tx,
        default 0 (tile_to_id !! tile_hash (cell_tile map_image (tx, ty))) + 1)
        <$> seq 0 (tiles_x map_image)) <$> seq 0 (tiles_y map_image)).
Proof.
  intros tile_to_id. rewrite build_tile_map_eq.
  apply mapM_total. intros ty [_ Hy]%elem_of_seq.
  apply mapM_total. intros tx [_ Hx]%elem_of_seq.
  destruct (cell_id_assigned map_image tx ty) as (i & Hi & _); [lia..|].
  fold tile_to_id in Hi. by rewrite Hi.
Qed.

Lemma fold_left_app_concat {A} (l : list (list A)) (acc : list A) :
  fold_left (λ flat row, flat ++ row) l acc = acc ++ concat l.
Proof.
  revert acc. induction l as [|row l IH]; intros acc; simpl.
  - by rewrite app_nil_r.
  - by rewrite IH, app_assoc.
Qed.

Lemma concat_rows_grid {A} (f : nat → nat → A) (m n : nat) :
  concat ((λ y, (λ x, f x y) <$> seq 0 m) <$> seq 0 n)
  = (λ c, f c.1 c.2) <$> grid m n.
Proof.
  induction n as [|n IH]; [done|].
  rewrite seq_S, grid_S, !fmap_app, concat_app, IH. simpl.
  rewrite app_nil_r. f_equal. by rewrite <- list_fmap_compose.
Qed.


(** *** The atlas of [create_tileset_image] *)

Lemma ceil_sqrt_spec (n : nat) :
  0 < n →
  0 < ceil_sqrt n
  ∧ (ceil_sqrt n - 1) * (ceil_sqrt n - 1) < n
  ∧ n ≤ ceil_sqrt n * ceil_sqrt n.
Proof.
  intros Hn. unfold ceil_sqrt. pose proof (Nat.sqrt_spec n (Nat.le_0_l n)) as Hs.
  cbv zeta. destruct (Nat.eqb_spec (Nat.sqrt n * Nat.sqrt n) n) as [He|He]; nia.
Qed.

Lemma ceil_div_spec (n d r : nat) :
  ceil_div n d = Some r → 0 < d ∧ n ≤ r * d ∧ r * d < n + d.
Proof.
  unfold ceil_div. destruct (Nat.eqb_spec d 0) as [|Hd]; [done|].
  pose proof (Nat.div_mod n d Hd) as Hdm.
  pose proof (Nat.mod_upper_bound n d Hd) as Hub.
  destruct (Nat.eqb_spec (n mod d) 0) as [Hm|Hm]; intros [= <-]; nia.
Qed.

Lemma ceil_div_is_Some (n d : nat) : 0 < d → is_Some (ceil_div n d).
Proof.
  intros Hd. unfold ceil_div. destruct (Nat.eqb_spec d 0); [lia|eauto].
Qed.

Lemma enumerate_snoc {A} (l : list A) (a : A) :
  enumerate (l ++ [a]) = enumerate l ++ [(length l, a)].
Proof.
  unfold enumerate. rewrite length_app. simpl. rewrite Nat.add_1_r, seq_S.
  rewrite zip_with_app by (by rewrite length_seq). done.
Qed.

Lemma fromarray_size (t : ndarray) :
  shape TILE_SIZE TILE_SIZE t →
  width (fromarray t) = TILE_SIZE ∧ height (fromarray t) = TILE_SIZE.
Proof.
  intros [Hh Hw]. pose proof TILE_SIZE_pos. simpl. split; [|done].
  destruct t as [|row t]; simpl in *; [lia|]. by apply Forall_cons in Hw as [? _].
Qed.

(** Two different atlas slots do not share a pixel. *)
Lemma slot_apart (c i j dx dy : nat) :
  0 < c → i ≠ j → dx < TILE_SIZE → dy < TILE_SIZE →
  (j mod c * TILE_SIZE <=? i mod c * TILE_SIZE + dx)
  && (i mod c * TILE_SIZE + dx <? j mod c * TILE_SIZE + TILE_SIZE)
  && (j / c * TILE_SIZE <=? i / c * TILE_SIZE + dy)
  && (i / c * TILE_SIZE + dy <? j / c * TILE_SIZE + TILE_SIZE) = false.
Proof.
  intros Hc Hij Hdx Hdy. apply not_true_is_false. intros Hb.
  apply andb_prop in Hb as [Hb H4]. apply andb_prop in Hb as [Hb H3].
  apply andb_prop in Hb as [H1 H2].
  apply Nat.leb_le in H1, H3. apply Nat.ltb_lt in H2, H4.
  assert (j mod c = i mod c) as Hm by nia.
  assert (j / c = i / c) as Hd by nia.
  apply Hij. rewrite (Nat.div_mod i c), (Nat.div_mod j c) by lia. congruence.
Qed.

Section atlas.
Variable c : nat.
Hypothesis c_pos : 0 < c.

Lemma paste_loop_size (us : list ndarray) (init : Image rgba) :
  width (fold_left (paste_tile c) (enumerate us) init) = width init
  ∧ height (fold_left (paste_tile c) (enumerate us) init) = height init.
Proof.
  induction us as [|t us IH] using rev_ind; [done|].
  by rewrite enumerate_snoc, fold_left_app.
Qed.

Lemma paste_loop_load (us : list ndarray) (init : Image rgba) (i dx dy : nat)
    (t : ndarray) :
  Forall (shape TILE_SIZE TILE_SIZE) us →
  us !! i = Some t → dx < TILE_SIZE → dy < TILE_SIZE →
  load (fold_left (paste_tile c) (enumerate us) init)
       (i mod c * TILE_SIZE + dx) (i / c * TILE_SIZE + dy)
  = nth dx (nth dy t []) zero.
Proof.
  intros Hsh Hi Hdx Hdy. revert Hsh i Hi.
  induction us as [|t' us IH] using rev_ind; [done|].
  intros Hall i Hi. apply Forall_app in Hall as [Hsh Ht'].
  apply Forall_inv in Ht'.
  destruct (fromarray_size t' Ht') as [Hw Hh].
  rewrite enumerate_snoc, fold_left_app. cbn [fold_left].
  unfold paste_tile at 1. cbv zeta. cbn [paste load]. rewrite Hw, Hh.
  apply lookup_app_Some in Hi as [Hi|[Hge Hi]].
  - rewrite slot_apart; [by apply IH|done| |done..].
    apply lookup_lt_Some in Hi. lia.
  - apply list_lookup_singleton_Some in Hi as [Hi <-].
    assert (i = length us) as -> by lia.
    replace (_ && _ && _ && _) with true.
    + cbn [fromarray load]. by rewrite !Nat.add_sub'.
    + symmetry. rewrite !andb_true_iff, !Nat.leb_le, !Nat.ltb_lt. lia.
Qed.
End atlas.

Lemma shape_tabulate (h w : nat) (t : ndarray) :
  shape h w t →
  t = map (λ j, map (λ i, nth i (nth j t []) zero) (seq 0 w)) (seq 0 h).
Proof.
  intros [<- Hw]. apply list_eq. intros j.
  rewrite list_lookup_fmap. destruct (t !! j) as [row|] eqn:Hj.
  - rewrite lookup_seq_lt by (by eapply lookup_lt_Some). simpl. f_equal.
    rewrite (nth_lookup_Some _ _ _ _ Hj).
    assert (length row = w) as <-.
    { eapply Forall_forall in Hw; [done|]. by eapply list_elem_of_lookup_2. }
    apply list_eq. intros i. rewrite list_lookup_fmap.
    destruct (row !! i) as [p|] eqn:Hp.
    + rewrite lookup_seq_lt by (by eapply lookup_lt_Some). simpl.
      by rewrite (nth_lookup_Some _ _ _ _ Hp).
    + rewrite lookup_seq_ge; [done|]. by apply lookup_ge_None.
  - rewrite lookup_seq_ge; [done|]. by apply lookup_ge_None.
Qed.

(** Cropping the atlas at the slot of index [i] gives back tile [i]. *)
Lemma create_tileset_image_crop (unique_tiles : list ndarray)
    (atlas : Image rgba) (c r i : nat) (t : ndarray) :
  Forall (shape TILE_SIZE TILE_SIZE) unique_tiles →
  create_tileset_image unique_tiles = Some (atlas, (c, r)) →
  unique_tiles !! i = Some t →
  extract_tile atlas (i mod c * TILE_SIZE) (i / c * TILE_SIZE) = t.
Proof.
  intros Hsh Hc Hi. unfold create_tileset_image in Hc.
  destruct (ceil_div _ _) as [r'|] eqn:Hr; [|done].
  cbn [mbind option_bind] in Hc. injection Hc as <- <- <-.
  apply ceil_div_spec in Hr as (Hpos & Hle & Hlt).
  set (c := ceil_sqrt (length unique_tiles)) in *.
  pose proof (lookup_lt_Some _ _ _ Hi) as Hin.
  pose proof (Nat.mod_upper_bound i c ltac:(lia)) as Hmod.
  assert (i / c < r') as Hdiv.
  { apply Nat.Div0.div_lt_upper_bound. lia. }
  rewrite extract_tile_eq.
  rewrite (shape_tabulate TILE_SIZE TILE_SIZE t) at 1.
  2:{ eapply Forall_forall in Hsh; [done|]. by eapply list_elem_of_lookup_2. }
  apply map_ext_in. intros dy [_ Hdy]%in_seq.
  apply map_ext_in. intros dx [_ Hdx]%in_seq.
  set (init := new _ _).
  change (fold_left _ (enumerate unique_tiles) init)
    with (fold_left (paste_tile c) (enumerate unique_tiles) init).
  unfold getpixel.
  destruct (paste_loop_size c unique_tiles init) as [-> ->].
  rewrite (paste_loop_load c Hpos unique_tiles _ i dx dy t) by done.
  replace (_ && _) with true; [done|].
  symmetry. subst init. cbn [new width height fst snd].
  rewrite andb_true_iff, !Nat.ltb_lt. nia.
Qed.

(** *** A whole run *)

Lemma unique_tiles_nonempty (map_image : Image rgba) :
  0 < tiles_x map_image → 0 < tiles_y map_image →
  0 < length (extract_unique_tiles_from_map map_image).2.
Proof.
  intros Hx Hy. destruct (cell_id_assigned map_image 0 0 Hx Hy) as (i & _ & Hi).
  lia.
Qed.

Lemma create_tileset_image_is_Some (unique_tiles : list ndarray) :
  0 < length unique_tiles →
  ∃ atlas r, create_tileset_image unique_tiles
             = Some (atlas, (ceil_sqrt (length unique_tiles), r))
    ∧ ceil_div (length unique_tiles) (ceil_sqrt (length unique_tiles)) = Some r
    ∧ width atlas = ceil_sqrt (length unique_tiles) * TILE_SIZE
    ∧ height atlas = r * TILE_SIZE.
Proof.
  intros Hn. destruct (ceil_sqrt_spec _ Hn) as (Hc & _).
  destruct (ceil_div_is_Some (length unique_tiles) _ Hc) as [r Hr].
  unfold create_tileset_image. rewrite Hr. cbn [mbind option_bind].
  eexists _, r. split_and!; [done|done|..].
  - set (init := new _ _).
    change (fold_left _ (enumerate unique_tiles) init)
      with (fold_left (paste_tile (ceil_sqrt (length unique_tiles)))
              (enumerate unique_tiles) init).
    by destruct (paste_loop_size (ceil_sqrt (length unique_tiles)) unique_tiles init) as [-> _].
  - set (init := new _ _).
    change (fold_left _ (enumerate unique_tiles) init)
      with (fold_left (paste_tile (ceil_sqrt (length unique_tiles)))
              (enumerate unique_tiles) init).
    by destruct (paste_loop_size (ceil_sqrt (length unique_tiles)) unique_tiles init) as [_ ->].
Qed.

Lemma generate_tiled_json_data (tilemap : list (list nat)) (path : string)
    (tiles_per_row num_tiles : nat) (doc : TiledMap) :
  generate_tiled_json tilemap path tiles_per_row num_tiles = Some doc →
  ∃ layer tileset,
    layers doc = [layer] ∧ layer_data layer = concat tilemap
    ∧ tilesets doc = [tileset] ∧ columns tileset = tiles_per_row
    ∧ tilecount tileset = num_tiles.
Proof.
  unfold generate_tiled_json. destruct (tilemap !! 0) as [row0|]; [|done].
  cbn [mbind option_bind]. case_guard; [|done]. cbn [mbind option_bind].
  intros [= <-]. eexists _, _. cbn [layers tilesets layer_data columns tilecount].
  split_and!; try done. by rewrite fold_left_app_concat.
Qed.

Lemma generate_tiled_json_is_Some (tilemap : list (list nat)) (path : string)
    (tiles_per_row num_tiles : nat) :
  0 < length tilemap → 0 < tiles_per_row →
  is_Some (generate_tiled_json tilemap path tiles_per_row num_tiles).
Proof.
  intros Hl Hc. unfold generate_tiled_json.
  destruct (lookup_lt_is_Some_2 tilemap 0 Hl) as [row0 ->].
  cbn [mbind option_bind]. case_guard; [|lia]. by eexists.
Qed.

(** On an image of at least one tile in each direction the run writes
    its three outputs. *)
Lemma main_success (map_image : Image rgba) :
  0 < tiles_x map_image → 0 < tiles_y map_image →
  ∃ tilemap atlas c r doc,
    build_tile_map map_image (extract_unique_tiles_from_map map_image).1
      = Some tilemap
    ∧ create_tileset_image (extract_unique_tiles_from_map map_image).2
      = Some (atlas, (c, r))
    ∧ generate_tiled_json tilemap "tileset.png" c
        (length (extract_unique_tiles_from_map map_image).2) = Some doc
    ∧ main map_image
      = Some {| tileset_png := atlas; overworld_json := doc;
                screens_json := generate_screen_metadata;
                unique_count := length (extract_unique_tiles_from_map map_image).2 |}.
Proof.
  intros Hx Hy.
  pose proof (build_tile_map_total map_image) as Hb. cbv zeta in Hb.
  pose proof (unique_tiles_nonempty map_image Hx Hy) as Hn.
  destruct (create_tileset_image_is_Some _ Hn) as (atlas & r & Ha & _).
  destruct (ceil_sqrt_spec _ Hn) as (Hc & _).
  set (tilemap := (λ ty, _ <$> _) <$> _) in Hb.
  assert (0 < length tilemap) as Hl.
  { unfold tilemap. by rewrite length_fmap, length_seq. }
  destruct (generate_tiled_json_is_Some tilemap "tileset.png" _
              (length (extract_unique_tiles_from_map map_image).2) Hl Hc)
    as [doc Hdoc].
  exists tilemap, atlas,
    (ceil_sqrt (length (extract_unique_tiles_from_map map_image).2)), r, doc.
  split_and!; [done..|].
  unfold main. destruct (extract_unique_tiles_from_map map_image) as [m us].
  simpl in *. rewrite Hb. cbn [mbind option_bind]. rewrite Ha.
  cbn [mbind option_bind]. rewrite Hdoc. cbn [mbind option_bind].
  destruct (lookup_lt_is_Some_2 tilemap 0 Hl) as [row0 ->]. done.
Qed.

Lemma tilemap_data_lookup (map_image : Image rgba) (tx ty : nat) :
  tx < tiles_x map_image → ty < tiles_y map_image →
  ∃ tilemap tile_id,
    build_tile_map map_image (extract_unique_tiles_from_map map_image).1
      = Some tilemap
    ∧ (extract_unique_tiles_from_map map_image).1
        !! tile_hash (cell_tile map_image (tx, ty)) = Some tile_id
    ∧ tile_id < length (extract_unique_tiles_from_map map_image).2
    ∧ concat tilemap !! (ty * tiles_x map_image + tx) = Some (tile_id + 1).
Proof.
  intros Hx Hy. destruct (cell_id_assigned map_image tx ty Hx Hy) as (i & Hi & Hlt).
  eexists _, i. split; [apply build_tile_map_total|]. split_and!; [done..|].
  rewrite (concat_rows_grid (λ tx ty, default 0
    ((extract_unique_tiles_from_map map_image).1
       !! tile_hash (cell_tile map_image (tx, ty))) + 1)).
  rewrite list_lookup_fmap, grid_lookup by done. simpl. by rewrite Hi.
Qed.

Lemma tilemap_data_range (map_image : Image rgba) (tilemap : list (list nat)) :
  build_tile_map map_image (extract_unique_tiles_from_map map_image).1
    = Some tilemap →
  length (concat tilemap) = tiles_y map_image * tiles_x map_image
  ∧ Forall (λ ref, 1 ≤ ref ≤ length (extract_unique_tiles_from_map map_image).2)
      (concat tilemap).
Proof.
  rewrite build_tile_map_total. intros [= <-].
  rewrite (concat_rows_grid (λ tx ty, default 0
    ((extract_unique_tiles_from_map map_image).1
       !! tile_hash (cell_tile map_image (tx, ty))) + 1)).
  split; [by rewrite length_fmap, length_grid|].
  apply Forall_fmap, Forall_forall. intros [tx ty] [Hx Hy]%elem_of_grid. simpl.
  destruct (cell_id_assigned map_image tx ty Hx Hy) as (i & -> & Hlt). simpl. lia.
Qed.

(** The height that [generate_tiled_json] writes against the height of
    the atlas that [create_tileset_image] builds: a row too many exactly
    when the tile count is a multiple of the column count. *)
Lemma descriptor_height_vs_atlas (unique_tiles : list ndarray)
    (atlas : Image rgba) (c r : nat) (tilemap : list (list nat))
    (path : string) (doc : TiledMap) (tileset : TiledTileset) :
  create_tileset_image unique_tiles = Some (atlas, (c, r)) →
  generate_tiled_json tilemap path c (length unique_tiles) = Some doc →
  tilesets doc = [tileset] →
  imagewidth tileset = width atlas
  ∧ imageheight tileset
    = height atlas + (if length unique_tiles mod c =? 0 then TILE_SIZE else 0).
Proof.
  intros Hatlas Hdoc Hts.
  unfold create_tileset_image in Hatlas.
  destruct (ceil_div _ _) as [r'|] eqn:Hr; [|done].
  cbn [mbind option_bind] in Hatlas. injection Hatlas as <- <- <-.
  set (init := new _ _).
  change (fold_left _ (enumerate unique_tiles) init)
    with (fold_left (paste_tile (ceil_sqrt (length unique_tiles)))
            (enumerate unique_tiles) init).
  destruct (paste_loop_size (ceil_sqrt (length unique_tiles)) unique_tiles init)
    as [-> ->].
  unfold generate_tiled_json in Hdoc. destruct (tilemap !! 0); [|done].
  cbn [mbind option_bind] in Hdoc. case_guard; [|done].
  cbn [mbind option_bind] in Hdoc. injection Hdoc as <-.
  cbn [tilesets] in Hts. injection Hts as <-.
  cbn [imagewidth imageheight init new width height fst snd].
  split; [done|]. unfold ceil_div in Hr.
  destruct (Nat.eqb_spec (ceil_sqrt (length unique_tiles)) 0); [done|].
  injection Hr as <-.
  destruct (Nat.eqb_spec (length unique_tiles mod ceil_sqrt (length unique_tiles)) 0); lia.
Qed.
(** *** Screens *)

Lemma screens_grid :
  screens generate_screen_metadata
  = screen_record <$> grid SCREENS_WIDE SCREENS_TALL.
Proof.
  unfold generate_screen_metadata. cbn [screens].
  rewrite (for_range_grid _ _ (λ screens sx sy, screens ++ [screen_record (sx, sy)])).
  by rewrite (fold_left_snoc_fmap screen_record).
Qed.

(** *** Images that agree on the tiled area *)

Lemma cell_tile_agree (image1 image2 : Image rgba) (tx ty : nat) :
  image_size image1 = image_size image2 →
  (∀ x y, x < width image1 / TILE_SIZE * TILE_SIZE →
          y < height image1 / TILE_SIZE * TILE_SIZE →
          load image1 x y = load image2 x y) →
  tx < tiles_x image1 → ty < tiles_y image1 →
  cell_tile image1 (tx, ty) = cell_tile image2 (tx, ty).
Proof.
  intros [= Hw Hh] Hagree Hx Hy. unfold cell_tile. rewrite !extract_tile_eq.
  cbn [fst snd]. unfold tiles_x, tiles_y in *.
  pose proof (Nat.Div0.mul_div_le (width image1) TILE_SIZE).
  pose proof (Nat.Div0.mul_div_le (height image1) TILE_SIZE).
  apply map_ext_in. intros j [_ Hj]%in_seq.
  apply map_ext_in. intros i [_ Hi]%in_seq.
  unfold getpixel. rewrite <- Hw, <- Hh.
  assert (tx * TILE_SIZE + i < width image1 / TILE_SIZE * TILE_SIZE) by nia.
  assert (ty * TILE_SIZE + j < height image1 / TILE_SIZE * TILE_SIZE) by nia.
  replace (_ && _) with true; [by apply Hagree|].
  symmetry. rewrite andb_true_iff, !Nat.ltb_lt. lia.
Qed.

End ReconstructMapFacts.

(** ** tools/create_tileset.py *)

Lemma fold_left_flat_map {St A B} (f : St → B → St) (g : A → list B)
    (l : list A) (s : St) :
  fold_left f (flat_map g l) s = fold_left (λ s a, fold_left f (g a) s) l s.
Proof.
  revert s. induction l as [|a l IH]; intros s; simpl; [done|].
  by rewrite fold_left_app, IH.
Qed.

Lemma fold_left_fmap {St A B} (f : St → B → St) (g : A → B) (l : list A) (s : St) :
  fold_left f (g <$> l) s = fold_left (λ s a, f s (g a)) l s.
Proof. revert s. induction l as [|a l IH]; intros s; simpl; [done|]. apply IH. Qed.

Lemma fold_left_ext_eq {St A} (f g : St → A → St) (l : list A) (s : St) :
  (∀ s a, f s a = g s a) → fold_left f l s = fold_left g l s.
Proof.
  intros Hfg. revert s. induction l as [|a l IH]; intros s; simpl; [done|].
  by rewrite Hfg, IH.
Qed.

Module CreateTilesetFacts.
Import PIL CreateTileset CreateTilesetSpec.

#[local] Arguments TILE_SIZE : simpl never.
#[local] Arguments SCREEN_TILES_X : simpl never.
#[local] Arguments SCREEN_TILES_Y : simpl never.
#[local] Arguments SCREENS_X : simpl never.
#[local] Arguments SCREENS_Y : simpl never.
#[local] Arguments SEPARATOR_WIDTH : simpl never.

Lemma elem_of_scan_cells (c : (nat * nat) * (nat * nat)) :
  c ∈ scan_cells ↔
  c.1.1 < SCREENS_X ∧ c.1.2 < SCREENS_Y
  ∧ c.2.1 < SCREEN_TILES_X ∧ c.2.2 < SCREEN_TILES_Y.
Proof.
  unfold scan_cells. rewrite list_elem_of_In, in_flat_map.
  destruct c as [[sx sy] [tx ty]]. split.
  - intros ([sx' sy'] & Hs & Ht). apply in_map_iff in Ht as ([tx' ty'] & [= -> -> -> ->] & Ht).
    apply list_elem_of_In, elem_of_grid in Hs, Ht. cbn [fst snd] in *. lia.
  - cbn [fst snd]. intros (? & ? & ? & ?). exists (sx, sy).
    split; [apply (proj1 (list_elem_of_In _ _)), elem_of_grid; lia|].
    apply in_map_iff. exists (tx, ty).
    split; [done|apply (proj1 (list_elem_of_In _ _)), elem_of_grid; lia].
Qed.

Lemma length_scan_cells :
  length scan_cells
  = SCREENS_X * SCREENS_Y * SCREEN_TILES_X * SCREEN_TILES_Y.
Proof.
  unfold scan_cells.
  rewrite (length_flat_map_const _ (SCREEN_TILES_Y * SCREEN_TILES_X)).
  - rewrite length_grid. lia.
  - intros s. by rewrite length_map, length_grid.
Qed.

Lemma mismatch_test (w h ew eh : nat) :
  negb (w =? ew) || negb (h =? eh) = true ↔ (w, h) ≠ (ew, eh).
Proof.
  rewrite orb_true_iff, !negb_true_iff, !Nat.eqb_neq. split.
  - intros [?|?] [= ? ?]; done.
  - intros Hne. destruct (decide (w = ew)) as [->|]; [|by left].
    right. intros ->. done.
Qed.

Section with_source.
Context {P : Type} `{Mode P}.
Variable md5 : bytes → string.

Lemma extract_tile_box (img : Image P) (c : (nat * nat) * (nat * nat)) :
  cell_tile img c = crop img (tile_box c).
Proof. done. Qed.

(** The four nested loops visit [scan_cells] in order. *)
Lemma extract_all_fold (img : Image P) :
  extract_all md5 img = fold_left (scan_step md5 img) scan_cells (mkScan ∅ [] 0).
Proof.
  unfold extract_all, scan_cells.
  rewrite (for_range_grid _ _ (λ st screen_x screen_y,
    for_range SCREEN_TILES_Y (λ st tile_y,
      for_range SCREEN_TILES_X (λ st tile_x,
        scan_cell md5 img st screen_x screen_y tile_x tile_y) st) st)).
  rewrite fold_left_flat_map. apply fold_left_ext_eq. intros st s.
  rewrite (for_range_grid _ _ (λ st tile_x tile_y,
    scan_cell md5 img st s.1 s.2 tile_x tile_y)).
  by rewrite (fold_left_fmap (scan_step md5 img)).
Qed.

Lemma scan_sim (img : Image P) (cs : list ((nat * nat) * (nat * nat))) :
  sim md5 (fold_left (scan_step md5 img) cs (mkScan ∅ [] 0))
      (dedup (tile_hash md5) (cell_tile img <$> cs)) (length cs).
Proof.
  induction cs as [|c cs IH] using rev_ind.
  - split; simpl; [done| |done]. intros h. by rewrite !lookup_empty.
  - rewrite fmap_app, fold_left_app, length_app. simpl.
    rewrite dedup_snoc.
    pose proof (dedup_invariant (tile_hash md5) (cell_tile img <$> cs)) as [Htab _ _ _].
    destruct IH as [Ho Ht Hp].
    set (st := fold_left _ cs _) in *. set (g := dedup _ _) in *.
    unfold scan_step, scan_cell, dedup_step. fold (cell_tile img c).
    set (h := tile_hash md5 (cell_tile img c)).
    rewrite (Ht h). destruct (g.1 !! h) as [i|] eqn:Hi; simpl.
    + assert (is_Some (g.2 !! i)) as [t Hti].
      { apply Htab in Hi. apply lookup_lt_Some in Hi.
        rewrite length_fmap in Hi. by apply lookup_lt_is_Some_2. }
      rewrite Hti. split; simpl; [done..|lia].
    + split; simpl.
      * by rewrite Ho, fmap_app.
      * intros h'. destruct (decide (h = h')) as [<-|Hne].
        -- rewrite !lookup_insert_eq. simpl.
           by rewrite lookup_app_r, Nat.sub_diag.
        -- rewrite !lookup_insert_ne by done. rewrite Ht.
           destruct (g.1 !! h') as [j|] eqn:Hj; simpl; [|done].
           apply Htab in Hj. apply lookup_lt_Some in Hj.
           rewrite length_fmap in Hj. by rewrite lookup_app_l.
      * lia.
Qed.

Section against_numbering.
Variables (st : @scan P) (g : gmap string nat * list (Image P)).
Variables (l : list (Image P)) (n : nat).
Hypothesis Hsim : sim md5 st g n.
Hypothesis Hinv : dedup_inv (tile_hash md5) l g.

Lemma sim_atlas_index (h : string) : atlas_index st h = g.1 !! h.
Proof.
  destruct Hsim as [Ho _ _]. destruct Hinv as [Htab _ _ _].
  unfold atlas_index. rewrite Ho.
  destruct (g.1 !! h) as [i|] eqn:Hi.
  - apply Htab in Hi.
    rewrite (proj2 (list_find_Some _ _ i h)); [done|].
    split_and!; [done..|]. intros j y Hj Hlt ->.
    apply Htab in Hi, Hj. rewrite Hi in Hj. injection Hj as ->. lia.
  - rewrite (proj2 (list_find_None _ _)); [done|].
    apply Forall_forall. intros y [j Hj]%list_elem_of_lookup ->.
    apply Htab in Hj. congruence.
Qed.

Lemma sim_length_tile_order : length (tile_order st) = length g.2.
Proof. destruct Hsim as [-> _ _]. by rewrite length_fmap. Qed.

Lemma sim_unique_tiles_lookup (i : nat) (h : string) :
  tile_order st !! i = Some h → is_Some (unique_tiles st !! h).
Proof.
  destruct Hsim as [Ho Ht _]. destruct Hinv as [Htab _ _ _].
  rewrite Ho. intros Hi. apply Htab in Hi. rewrite Ht, Hi. simpl.
  apply lookup_lt_is_Some_2. apply Htab in Hi. apply lookup_lt_Some in Hi.
  by rewrite length_fmap in Hi.
Qed.

Lemma sim_NoDup_tile_order : NoDup (tile_order st).
Proof.
  destruct Hsim as [Ho _ _]. destruct Hinv as [Htab _ _ _].
  rewrite Ho. apply NoDup_alt. intros i j h Hi Hj.
  apply Htab in Hi, Hj. congruence.
Qed.

Lemma sim_size_unique_tiles : size (unique_tiles st) = length (tile_order st).
Proof.
  pose proof sim_NoDup_tile_order as Hnd.
  destruct Hsim as [Ho Ht _]. destruct Hinv as [Htab _ _ _].
  rewrite <- size_dom.
  assert (dom (unique_tiles st) = list_to_set (tile_order st)) as ->.
  { apply set_eq. intros h. rewrite elem_of_dom, elem_of_list_to_set. split.
    - intros [t Hh]. rewrite Ht in Hh. destruct (g.1 !! h) as [i|] eqn:Hi; [|done].
      apply Htab in Hi. rewrite Ho. by eapply list_elem_of_lookup_2.
    - intros [i Hi]%list_elem_of_lookup. by eapply sim_unique_tiles_lookup. }
  by apply size_list_to_set.
Qed.
End against_numbering.

Lemma extract_all_sim (img : Image P) :
  sim md5 (extract_all md5 img) (dedup (tile_hash md5) (scan_tiles img))
      (length scan_cells).
Proof. rewrite extract_all_fold. apply scan_sim. Qed.

Lemma processed_extract_all (img : Image P) :
  processed (extract_all md5 img)
  = SCREENS_X * SCREENS_Y * SCREEN_TILES_X * SCREEN_TILES_Y.
Proof.
  destruct (extract_all_sim img) as [_ _ ->]. apply length_scan_cells.
Qed.

Variable to_rgb : P → rgb.

Lemma paste_loop_is_Some (img : Image P) (init : Image rgb) :
  is_Some (for_each_raising (λ output_img '(i, h),
      tile ← unique_tiles (extract_all md5 img) !! h;
      Some (paste output_img (convert to_rgb tile)
              (i mod OUTPUT_TILES_PER_ROW * TILE_SIZE,
               i / OUTPUT_TILES_PER_ROW * TILE_SIZE)))
      (enumerate (tile_order (extract_all md5 img))) init).
Proof.
  pose proof (extract_all_sim img) as Hsim.
  pose proof (dedup_invariant (tile_hash md5) (scan_tiles img)) as Hinv.
  revert Hsim Hinv. generalize (extract_all md5 img).
  generalize (dedup (tile_hash md5) (scan_tiles img)).
  generalize (scan_tiles img). generalize (length scan_cells).
  intros n l g st Hsim Hinv.
  apply for_each_raising_is_Some. intros s [i h] Hih%elem_of_enumerate.
  destruct (sim_unique_tiles_lookup st g l n Hsim Hinv i h Hih) as [t ->].
  by eexists.
Qed.

End with_source.
End CreateTilesetFacts.

(** ** Blocks of pixels *)

Lemma flat_map_fmap {A B C} (f : B → list C) (g : A → B) (l : list A) :
  flat_map f (map g l) = flat_map (λ a, f (g a)) l.
Proof. induction l as [|a l IH]; simpl; [done|]. by rewrite IH. Qed.

Lemma tobytes_crop {P} `{PIL.Mode P} (im : PIL.Image P) (n x y : nat) :
  PIL.tobytes (PIL.crop im (x, y, x + n, y + n)) = block_bytes im n x y.
Proof.
  unfold PIL.tobytes, PIL.rows, block_bytes. simpl.
  replace (x + n - x) with n by lia. replace (y + n - y) with n by lia.
  rewrite flat_map_fmap. apply flat_map_ext. intros dy.
  by rewrite flat_map_fmap.
Qed.

Module ReconstructMapPixels.
Import PIL Numpy ReconstructMap ReconstructMapSpec ReconstructMapFacts.

Lemma cell_fingerprint_bytes (map_image : Image rgba) (tx ty : nat) :
  tile_hash (cell_tile map_image (tx, ty))
  = block_bytes map_image TILE_SIZE (tx * TILE_SIZE) (ty * TILE_SIZE).
Proof. apply (tobytes_crop map_image TILE_SIZE). Qed.

Lemma extract_tile_pixel (image : Image rgba) (x y dx dy : nat) :
  dx < TILE_SIZE → dy < TILE_SIZE →
  nth dx (nth dy (extract_tile image x y) []) zero = getpixel image (x + dx) (y + dy).
Proof.
  intros Hdx Hdy. rewrite extract_tile_eq.
  rewrite (nth_lookup_Some _ dy _
            (map (λ i, getpixel image (x + i) (y + dy)) (seq 0 TILE_SIZE))).
  - apply nth_lookup_Some. by rewrite list_lookup_fmap, lookup_seq_lt.
  - by rewrite list_lookup_fmap, lookup_seq_lt.
Qed.

Lemma getpixel_cell (map_image : Image rgba) (tx ty dx dy : nat) :
  tx < tiles_x map_image → ty < tiles_y map_image →
  dx < TILE_SIZE → dy < TILE_SIZE →
  getpixel map_image (tx * TILE_SIZE + dx) (ty * TILE_SIZE + dy)
  = load map_image (tx * TILE_SIZE + dx) (ty * TILE_SIZE + dy).
Proof.
  unfold tiles_x, tiles_y, getpixel. intros Hx Hy Hdx Hdy.
  pose proof (Nat.Div0.mul_div_le (width map_image) TILE_SIZE).
  pose proof (Nat.Div0.mul_div_le (height map_image) TILE_SIZE).
  unfold TILE_SIZE in *.
  rewrite (proj2 (Nat.ltb_lt _ _)), (proj2 (Nat.ltb_lt _ _)); [done|nia|nia].
Qed.

(** Two cells have the same block exactly when the image has the same
    pixels in their two squares. *)
Lemma cell_tile_eq_iff (map_image : Image rgba) (tx1 ty1 tx2 ty2 : nat) :
  tx1 < tiles_x map_image → ty1 < tiles_y map_image →
  tx2 < tiles_x map_image → ty2 < tiles_y map_image →
  cell_tile map_image (tx1, ty1) = cell_tile map_image (tx2, ty2)
  ↔ ∀ dx dy, dx < TILE_SIZE → dy < TILE_SIZE →
      load map_image (tx1 * TILE_SIZE + dx) (ty1 * TILE_SIZE + dy)
      = load map_image (tx2 * TILE_SIZE + dx) (ty2 * TILE_SIZE + dy).
Proof.
  intros Hx1 Hy1 Hx2 Hy2. unfold cell_tile. cbn [fst snd]. split.
  - intros Heq dx dy Hdx Hdy.
    rewrite <- !getpixel_cell by done.
    rewrite <- !extract_tile_pixel by done. by rewrite Heq.
  - intros Hpx. rewrite !extract_tile_eq.
    apply map_ext_in. intros dy [_ Hdy]%in_seq.
    apply map_ext_in. intros dx [_ Hdx]%in_seq.
    rewrite !getpixel_cell by (done || lia). apply Hpx; lia.
Qed.

(** The entry of a cell in the tilemap that [build_tile_map] returns. *)
Lemma tilemap_entry (map_image : Image rgba) (tx ty : nat) :
  tx < tiles_x map_image → ty < tiles_y map_image →
  ∃ tilemap tile_id,
    build_tile_map map_image (extract_unique_tiles_from_map map_image).1
      = Some tilemap
    ∧ (extract_unique_tiles_from_map map_image).1
        !! tile_hash (cell_tile map_image (tx, ty)) = Some tile_id
    ∧ tilemap !! ty ≫= (.!! tx) = Some (tile_id + 1).
Proof.
  intros Hx Hy. destruct (cell_id_assigned map_image tx ty Hx Hy) as (i & Hi & _).
  eexists _, i. split; [apply build_tile_map_total|]. split; [done|].
  rewrite list_lookup_fmap, lookup_seq_lt by done. simpl.
  rewrite list_lookup_fmap, lookup_seq_lt by done. simpl.
  by rewrite Hi.
Qed.

End ReconstructMapPixels.

Module CreateTilesetPixels.
Import PIL CreateTileset CreateTilesetSpec CreateTilesetFacts.

Section with_source.
Context {P : Type} `{Mode P}.
Variable md5 : bytes → string.

(** The fingerprint that the scan computes for a cell is the digest of
    the bytes of the image in the cell's square. *)
Lemma scan_fingerprint_bytes (img : Image P) (sx sy tx ty : nat) :
  tile_hash md5 (extract_tile img sx sy tx ty)
  = md5 (block_bytes img TILE_SIZE
           (sx * (SCREEN_TILES_X * TILE_SIZE + SEPARATOR_WIDTH) + tx * TILE_SIZE)
           (sy * (SCREEN_TILES_Y * TILE_SIZE + SEPARATOR_WIDTH) + ty * TILE_SIZE)).
Proof. unfold tile_hash. f_equal. apply (tobytes_crop img TILE_SIZE). Qed.

(** Two scanned cells have the same position in [tile_order] exactly
    when the digests of the bytes in their squares agree. *)
Lemma cells_index_iff_digest (img : Image P) (sx1 sy1 tx1 ty1 sx2 sy2 tx2 ty2 : nat) :
  sx1 < SCREENS_X → sy1 < SCREENS_Y → tx1 < SCREEN_TILES_X → ty1 < SCREEN_TILES_Y →
  sx2 < SCREENS_X → sy2 < SCREENS_Y → tx2 < SCREEN_TILES_X → ty2 < SCREEN_TILES_Y →
  let st := extract_all md5 img in
  let bytes_of := λ sx sy tx ty,
    block_bytes img TILE_SIZE
      (sx * (SCREEN_TILES_X * TILE_SIZE + SEPARATOR_WIDTH) + tx * TILE_SIZE)
      (sy * (SCREEN_TILES_Y * TILE_SIZE + SEPARATOR_WIDTH) + ty * TILE_SIZE) in
  let bytes1 := bytes_of sx1 sy1 tx1 ty1 in
  let bytes2 := bytes_of sx2 sy2 tx2 ty2 in
  ∃ i1 i2,
    tile_order st !! i1 = Some (md5 bytes1)
    ∧ tile_order st !! i2 = Some (md5 bytes2)
    ∧ atlas_index st (md5 bytes1) = Some i1
    ∧ atlas_index st (md5 bytes2) = Some i2
    ∧ (i1 = i2 ↔ md5 bytes1 = md5 bytes2).
Proof.
  intros Hsx1 Hsy1 Htx1 Hty1 Hsx2 Hsy2 Htx2 Hty2 st bytes_of bytes1 bytes2.
  pose proof (extract_all_sim md5 img) as Hsim.
  pose proof (dedup_invariant (tile_hash md5) (scan_tiles img)) as Hinv.
  assert (extract_tile img sx1 sy1 tx1 ty1 ∈ scan_tiles img) as Hin1.
  { apply (list_elem_of_fmap_2 (cell_tile img) _ ((sx1, sy1), (tx1, ty1))).
    by apply elem_of_scan_cells. }
  assert (extract_tile img sx2 sy2 tx2 ty2 ∈ scan_tiles img) as Hin2.
  { apply (list_elem_of_fmap_2 (cell_tile img) _ ((sx2, sy2), (tx2, ty2))).
    by apply elem_of_scan_cells. }
  pose proof (scan_fingerprint_bytes img sx1 sy1 tx1 ty1) as E1.
  pose proof (scan_fingerprint_bytes img sx2 sy2 tx2 ty2) as E2.
  change (tile_hash md5 (extract_tile img sx1 sy1 tx1 ty1) = md5 bytes1) in E1.
  change (tile_hash md5 (extract_tile img sx2 sy2 tx2 ty2) = md5 bytes2) in E2.
  fold st in Hsim. clearbody st bytes1 bytes2. clear bytes_of.
  revert Hsim Hinv Hin1 Hin2 E1 E2.
  generalize (extract_tile img sx1 sy1 tx1 ty1).
  generalize (extract_tile img sx2 sy2 tx2 ty2).
  generalize (dedup (tile_hash md5) (scan_tiles img)).
  generalize (scan_tiles img).
  generalize (length scan_cells).
  intros n l g t2 t1 Hsim Hinv Hin1 Hin2 E1 E2.
  rewrite !(sim_atlas_index md5 st g l n Hsim Hinv).
  rewrite (sim_order _ _ _ _ Hsim), <- E1, <- E2.
  destruct (inv_seen _ _ _ Hinv t1 Hin1) as [i1 H1].
  destruct (inv_seen _ _ _ Hinv t2 Hin2) as [i2 H2].
  exists i1, i2.
  pose proof (proj1 (inv_table _ _ _ Hinv _ _) H1) as H1'.
  pose proof (proj1 (inv_table _ _ _ Hinv _ _) H2) as H2'.
  split_and!; [done..|]. split.
  - intros ->. congruence.
  - intros Heq. rewrite Heq in H1. congruence.
Qed.

End with_source.
End CreateTilesetPixels.

(** ** MD5 on the sample inputs *)
Module HashlibFacts.
Import PIL CreateTileset CreateTilesetSpec Samples.

(** The test suite of RFC 1321, in part. *)
Example md5_empty : Hashlib.md5 [] = "d41d8cd98f00b204e9800998ecf8427e".
Proof. vm_compute. reflexivity. Qed.

Example md5_abc :
  Hashlib.md5 (String.list_byte_of_string "abc") = "900150983cd24fb0d6963f7d28e17f72".
Proof. vm_compute. reflexivity. Qed.

Example md5_digits :
  Hashlib.md5 (String.list_byte_of_string
    "12345678901234567890123456789012345678901234567890123456789012345678901234567890")
  = "57edf4a22be3c955ac49da2e2107b67a".
Proof. vm_compute. reflexivity. Qed.

(** The two messages differ and have the same digest. *)
Lemma collision_pair :
  collision_a ≠ collision_b
  ∧ Hashlib.md5 collision_a = "79054025255fb1a26e4bc422aef54eb4"
  ∧ Hashlib.md5 collision_b = "79054025255fb1a26e4bc422aef54eb4".
Proof. split; [discriminate|]. split; vm_compute; reflexivity. Qed.

(** The first two tiles of [colliding] have the same MD5 digest. *)
Lemma colliding_digests :
  Hashlib.md5 (block_bytes colliding TILE_SIZE 0 0)
  = Hashlib.md5 (block_bytes colliding TILE_SIZE 16 0).
Proof. vm_compute. reflexivity. Qed.

Lemma colliding_bytes_differ :
  block_bytes colliding TILE_SIZE 0 0 ≠ block_bytes colliding TILE_SIZE 16 0.
Proof.
  intros Heq. apply (f_equal (λ b, nth 19 b x00)) in Heq.
  vm_compute in Heq. discriminate.
Qed.

End HashlibFacts.


(** * The properties of the specification *)

Module DedupProps.
Import PIL Numpy Samples.

(** C1, as the code has it. Deduplication is by fingerprint alone. In
    [reconstruct_map] the fingerprint of a cell is the raw bytes of the
    image in the cell's square, so two grid cells of one image get the
    same Tile ID (the entry of the tilemap, less one) exactly when those
    bytes are the same, which is exactly when the image has the same
    pixels in the two squares. In [create_tileset] the fingerprint is
    the MD5 digest of those bytes, for any digest function: two scanned
    cells get the same position in [tile_order] exactly when the digests
    of their bytes agree; cells with the same bytes always do, and cells
    at different positions never have the same bytes. *)
Theorem dedup_by_fingerprint :
  (∀ (map_image : Image rgba) (tx1 ty1 tx2 ty2 : nat),
     tx1 < ReconstructMapSpec.tiles_x map_image →
     ty1 < ReconstructMapSpec.tiles_y map_image →
     tx2 < ReconstructMapSpec.tiles_x map_image →
     ty2 < ReconstructMapSpec.tiles_y map_image →
     let tile_to_id := (ReconstructMap.extract_unique_tiles_from_map map_image).1 in
     let bytes1 := block_bytes map_image ReconstructMap.TILE_SIZE
                     (tx1 * ReconstructMap.TILE_SIZE) (ty1 * ReconstructMap.TILE_SIZE) in
     let bytes2 := block_bytes map_image ReconstructMap.TILE_SIZE
                     (tx2 * ReconstructMap.TILE_SIZE) (ty2 * ReconstructMap.TILE_SIZE) in
     ∃ tilemap id1 id2,
       ReconstructMap.build_tile_map map_image tile_to_id = Some tilemap
       ∧ tilemap !! ty1 ≫= (.!! tx1) = Some (id1 + 1)
       ∧ tilemap !! ty2 ≫= (.!! tx2) = Some (id2 + 1)
       ∧ tile_to_id !! bytes1 = Some id1
       ∧ tile_to_id !! bytes2 = Some id2
       ∧ (id1 = id2 ↔ bytes1 = bytes2)
       ∧ (id1 = id2 ↔
          ∀ dx dy, dx < ReconstructMap.TILE_SIZE → dy < ReconstructMap.TILE_SIZE →
            load map_image (tx1 * ReconstructMap.TILE_SIZE + dx)
                           (ty1 * ReconstructMap.TILE_SIZE + dy)
            = load map_image (tx2 * ReconstructMap.TILE_SIZE + dx)
                             (ty2 * ReconstructMap.TILE_SIZE + dy)))
  ∧ (∀ (P : Type) (M : Mode P) (md5 : bytes → string) (img : Image P)
       (sx1 sy1 tx1 ty1 sx2 sy2 tx2 ty2 : nat),
     sx1 < CreateTileset.SCREENS_X → sy1 < CreateTileset.SCREENS_Y →
     tx1 < CreateTileset.SCREEN_TILES_X → ty1 < CreateTileset.SCREEN_TILES_Y →
     sx2 < CreateTileset.SCREENS_X → sy2 < CreateTileset.SCREENS_Y →
     tx2 < CreateTileset.SCREEN_TILES_X → ty2 < CreateTileset.SCREEN_TILES_Y →
     let st := CreateTileset.extract_all md5 img in
     let bytes_of := λ sx sy tx ty,
       block_bytes img CreateTileset.TILE_SIZE
         (sx * (CreateTileset.SCREEN_TILES_X * CreateTileset.TILE_SIZE
                + CreateTileset.SEPARATOR_WIDTH) + tx * CreateTileset.TILE_SIZE)
         (sy * (CreateTileset.SCREEN_TILES_Y * CreateTileset.TILE_SIZE
                + CreateTileset.SEPARATOR_WIDTH) + ty * CreateTileset.TILE_SIZE) in
     let bytes1 := bytes_of sx1 sy1 tx1 ty1 in
     let bytes2 := bytes_of sx2 sy2 tx2 ty2 in
     ∃ i1 i2,
       CreateTileset.tile_order st !! i1 = Some (md5 bytes1)
       ∧ CreateTileset.tile_order st !! i2 = Some (md5 bytes2)
       ∧ (i1 = i2 ↔ md5 bytes1 = md5 bytes2)
       ∧ (bytes1 = bytes2 → i1 = i2)
       ∧ (i1 ≠ i2 → bytes1 ≠ bytes2)).
Proof.
  split.
  - intros map_image tx1 ty1 tx2 ty2 Hx1 Hy1 Hx2 Hy2 tile_to_id bytes1 bytes2.
    destruct (ReconstructMapPixels.tilemap_entry map_image tx1 ty1 Hx1 Hy1)
      as (tilemap & id1 & Hmap & H1 & E1).
    destruct (ReconstructMapPixels.tilemap_entry map_image tx2 ty2 Hx2 Hy2)
      as (tilemap' & id2 & Hmap' & H2 & E2).
    assert (tilemap' = tilemap) as -> by congruence.
    pose proof (ReconstructMapPixels.cell_fingerprint_bytes map_image tx1 ty1) as B1.
    pose proof (ReconstructMapPixels.cell_fingerprint_bytes map_image tx2 ty2) as B2.
    fold bytes1 in B1. fold bytes2 in B2. fold tile_to_id in Hmap, H1, H2.
    exists tilemap, id1, id2.
    assert (id1 = id2 ↔ bytes1 = bytes2) as Hiff.
    { rewrite <- B1, <- B2. split.
      - intros ->. subst tile_to_id.
        rewrite ReconstructMapFacts.extract_unique_tiles_dedup in H1, H2.
        apply (inv_id_inj ReconstructMap.tile_hash _ _ (dedup_invariant _ _) _ _ _ H1 H2).
      - intros Heq. rewrite Heq in H1. congruence. }
    split_and!; [done|done|done|by rewrite <- B1|by rewrite <- B2|done|].
    rewrite Hiff, <- B1, <- B2.
    rewrite <- (ReconstructMapPixels.cell_tile_eq_iff map_image tx1 ty1 tx2 ty2) by done.
    split; [|by intros ->].
    apply (ReconstructMapFacts.tile_hash_inj ReconstructMap.TILE_SIZE
             ReconstructMap.TILE_SIZE);
      apply ReconstructMapFacts.shape_cell_tile.
  - intros P M md5 img sx1 sy1 tx1 ty1 sx2 sy2 tx2 ty2
      Hsx1 Hsy1 Htx1 Hty1 Hsx2 Hsy2 Htx2 Hty2 st bytes_of bytes1 bytes2.
    destruct (CreateTilesetPixels.cells_index_iff_digest md5 img
                sx1 sy1 tx1 ty1 sx2 sy2 tx2 ty2)
      as (i1 & i2 & H1 & H2 & _ & _ & Hiff); [assumption..|].
    exists i1, i2.
    split; [exact H1|]. split; [exact H2|]. split; [exact Hiff|].
    clear H1 H2. split.
    + intros Heq. apply Hiff. exact (f_equal md5 Heq).
    + intros Hne Heq. apply Hne, Hiff. exact (f_equal md5 Heq).
Qed.

(** C1, as stated, fails in [create_tileset] on a map of the configured
    size whose first two tiles hold the two messages of a known MD5
    collision: the two cells differ (in the pixel at (6, 0) against
    (22, 0), and in their raw bytes), and they get one and the same
    position in [tile_order]. *)
Lemma md5_collision_shares_one_id :
  let img := colliding in
  let st := CreateTileset.extract_all Hashlib.md5 img in
  let bytes1 := block_bytes img CreateTileset.TILE_SIZE 0 0 in
  let bytes2 := block_bytes img CreateTileset.TILE_SIZE 16 0 in
  image_size img = CreateTilesetSpec.expected_size
  ∧ (∃ i, CreateTileset.tile_order st !! i = Some (Hashlib.md5 bytes1)
          ∧ CreateTileset.tile_order st !! i = Some (Hashlib.md5 bytes2)
          ∧ CreateTilesetSpec.atlas_index st
              (CreateTileset.tile_hash Hashlib.md5 (CreateTileset.extract_tile img 0 0 0 0))
            = Some i
          ∧ CreateTilesetSpec.atlas_index st
              (CreateTileset.tile_hash Hashlib.md5 (CreateTileset.extract_tile img 0 0 1 0))
            = Some i)
  ∧ bytes1 ≠ bytes2
  ∧ PIL.tobytes (CreateTileset.extract_tile img 0 0 0 0)
    ≠ PIL.tobytes (CreateTileset.extract_tile img 0 0 1 0)
  ∧ load img 6 0 ≠ load img 22 0.
Proof.
  intros img st bytes1 bytes2. split; [reflexivity|].
  split; [|split; [exact HashlibFacts.colliding_bytes_differ|split]].
  - destruct (CreateTilesetPixels.cells_index_iff_digest Hashlib.md5 colliding
                0 0 0 0 0 0 1 0)
      as (i1 & i2 & H1 & H2 & A1 & A2 & Hiff); [vm_compute; lia..|].
    pose proof (CreateTilesetPixels.scan_fingerprint_bytes Hashlib.md5 colliding 0 0 0 0) as E1.
    pose proof (CreateTilesetPixels.scan_fingerprint_bytes Hashlib.md5 colliding 0 0 1 0) as E2.
    subst bytes1 bytes2 img. fold st in H1, H2, A1, A2.
    change (0 * (CreateTileset.SCREEN_TILES_X * CreateTileset.TILE_SIZE
                 + CreateTileset.SEPARATOR_WIDTH) + 0 * CreateTileset.TILE_SIZE)
      with 0 in H1, H2, A1, A2, Hiff, E1, E2.
    change (0 * (CreateTileset.SCREEN_TILES_Y * CreateTileset.TILE_SIZE
                 + CreateTileset.SEPARATOR_WIDTH) + 0 * CreateTileset.TILE_SIZE)
      with 0 in H1, H2, A1, A2, Hiff, E1, E2.
    change (0 * (CreateTileset.SCREEN_TILES_X * CreateTileset.TILE_SIZE
                 + CreateTileset.SEPARATOR_WIDTH) + 1 * CreateTileset.TILE_SIZE)
      with 16 in H1, H2, A1, A2, Hiff, E1, E2.
    pose proof (proj2 Hiff HashlibFacts.colliding_digests) as <-.
    rewrite E1, E2. clearbody st.
    exists i1. split; [exact H1|]. split; [exact H2|]. split; [exact A1|exact A2].
  - intros Heq. apply (f_equal (λ b, nth 19 b x00)) in Heq.
    vm_compute in Heq. discriminate.
  - vm_compute. discriminate.
Qed.


(** C1 on the red and the blue cell of [two_tone], and on the first two
    cells of [colliding] under MD5. *)
Lemma dedup_by_fingerprint_witness :
  (let tile_to_id := (ReconstructMap.extract_unique_tiles_from_map two_tone).1 in
   let bytes1 := block_bytes two_tone ReconstructMap.TILE_SIZE
                   (0 * ReconstructMap.TILE_SIZE) (0 * ReconstructMap.TILE_SIZE) in
   let bytes2 := block_bytes two_tone ReconstructMap.TILE_SIZE
                   (1 * ReconstructMap.TILE_SIZE) (0 * ReconstructMap.TILE_SIZE) in
   ∃ tilemap id1 id2,
     ReconstructMap.build_tile_map two_tone tile_to_id = Some tilemap
     ∧ tilemap !! 0 ≫= (.!! 0) = Some (id1 + 1)
     ∧ tilemap !! 0 ≫= (.!! 1) = Some (id2 + 1)
     ∧ tile_to_id !! bytes1 = Some id1
     ∧ tile_to_id !! bytes2 = Some id2
     ∧ (id1 = id2 ↔ bytes1 = bytes2)
     ∧ (id1 = id2 ↔
        ∀ dx dy, dx < ReconstructMap.TILE_SIZE → dy < ReconstructMap.TILE_SIZE →
          load two_tone (0 * ReconstructMap.TILE_SIZE + dx)
                        (0 * ReconstructMap.TILE_SIZE + dy)
          = load two_tone (1 * ReconstructMap.TILE_SIZE + dx)
                          (0 * ReconstructMap.TILE_SIZE + dy)))
  ∧ (let st := CreateTileset.extract_all Hashlib.md5 colliding in
     let bytes_of := λ sx sy tx ty,
       block_bytes colliding CreateTileset.TILE_SIZE
         (sx * (CreateTileset.SCREEN_TILES_X * CreateTileset.TILE_SIZE
                + CreateTileset.SEPARATOR_WIDTH) + tx * CreateTileset.TILE_SIZE)
         (sy * (CreateTileset.SCREEN_TILES_Y * CreateTileset.TILE_SIZE
                + CreateTileset.SEPARATOR_WIDTH) + ty * CreateTileset.TILE_SIZE) in
     let bytes1 := bytes_of 0 0 0 0 in
     let bytes2 := bytes_of 0 0 1 0 in
     ∃ i1 i2,
       CreateTileset.tile_order st !! i1 = Some (Hashlib.md5 bytes1)
       ∧ CreateTileset.tile_order st !! i2 = Some (Hashlib.md5 bytes2)
       ∧ (i1 = i2 ↔ Hashlib.md5 bytes1 = Hashlib.md5 bytes2)
       ∧ (bytes1 = bytes2 → i1 = i2)
       ∧ (i1 ≠ i2 → bytes1 ≠ bytes2)).
Proof.
  split.
  - apply (proj1 dedup_by_fingerprint two_tone 0 0 1 0);
      vm_compute; lia.
  - apply (proj2 dedup_by_fingerprint rgb _ Hashlib.md5 colliding 0 0 0 0 0 0 1 0);
      vm_compute; lia.
Defined.


End DedupProps.

Module ReconstructMapProps.
Import PIL Numpy ReconstructMap ReconstructMapSpec ReconstructMapFacts Samples.

(** C3. Round trip. On an image with the cell [(tx, ty)] the run
    succeeds, and the reference exported for the cell is at least 1;
    minus one, taken to the atlas position [((id % columns) *
    TILE_SIZE, (id // columns) * TILE_SIZE)], it gives a [TILE_SIZE]
    square that lies within the atlas that was produced, and the crop of
    that square has, pixel for pixel, the content of the map image in
    the square of the cell. *)
Theorem atlas_round_trip (map_image : Image rgba) (tx ty : nat) :
  tx < tiles_x map_image → ty < tiles_y map_image →
  ∃ out layer tileset ref,
    main map_image = Some out
    ∧ layers (overworld_json out) = [layer]
    ∧ tilesets (overworld_json out) = [tileset]
    ∧ layer_data layer !! (ty * tiles_x map_image + tx) = Some ref
    ∧ 1 ≤ ref
    ∧ let tile_id := ref - 1 in
      let px := tile_id mod columns tileset * TILE_SIZE in
      let py := tile_id / columns tileset * TILE_SIZE in
      let block := crop (tileset_png out) (px, py, px + TILE_SIZE, py + TILE_SIZE) in
      px + TILE_SIZE ≤ width (tileset_png out)
      ∧ py + TILE_SIZE ≤ height (tileset_png out)
      ∧ image_size block = (TILE_SIZE, TILE_SIZE)
      ∧ ∀ dx dy, dx < TILE_SIZE → dy < TILE_SIZE →
          load block dx dy
          = load map_image (tx * TILE_SIZE + dx) (ty * TILE_SIZE + dy).
Proof.
  intros Hx Hy.
  destruct (main_success map_image) as
    (tilemap & atlas & c & r & doc & Hmap & Hatlas & Hdoc & Hmain); [lia..|].
  destruct (generate_tiled_json_data _ _ _ _ _ Hdoc)
    as (layer & tileset & Hlayers & Hdata & Htilesets & Hcols & _).
  destruct (tilemap_data_lookup map_image tx ty Hx Hy)
    as (tilemap' & i & Hmap' & Hi & Hlt & Hlook).
  destruct (create_tileset_image_is_Some (extract_unique_tiles_from_map map_image).2)
    as (atlas' & r' & Hatlas' & Hr & Hwa & Hha); [lia|].
  rewrite Hatlas in Hatlas'. injection Hatlas' as <- Hc <-.
  apply ceil_div_spec in Hr as (Hcpos & Hle & _). rewrite <- Hc in *.
  pose proof (create_tileset_image_crop
                (extract_unique_tiles_from_map map_image).2 atlas c r i
                (cell_tile map_image (tx, ty)) (unique_tiles_shape map_image) Hatlas
                (unique_tile_of_cell map_image tx ty i Hx Hy Hi)) as Hcrop.
  exists {| tileset_png := atlas; overworld_json := doc;
            screens_json := generate_screen_metadata;
            unique_count := length (extract_unique_tiles_from_map map_image).2 |},
    layer, tileset, (i + 1).
  cbn [overworld_json tileset_png].
  split; [done|]. split; [done|]. split; [done|]. split; [congruence|].
  split; [lia|]. cbv zeta. rewrite Hcols. replace (i + 1 - 1) with i by lia.
  pose proof (Nat.mod_upper_bound i c ltac:(lia)).
  assert (i / c < r) by (apply Nat.Div0.div_lt_upper_bound; lia).
  rewrite Hwa, Hha. split_and!; [nia|nia|..].
  - unfold image_size. simpl. f_equal; lia.
  - intros dx dy Hdx Hdy.
    change (getpixel atlas (i mod c * TILE_SIZE + dx) (i / c * TILE_SIZE + dy)
            = load map_image (tx * TILE_SIZE + dx) (ty * TILE_SIZE + dy)).
    rewrite <- (ReconstructMapPixels.extract_tile_pixel atlas) by done. rewrite Hcrop.
    unfold cell_tile. cbn [fst snd]. rewrite ReconstructMapPixels.extract_tile_pixel by done.
    by apply ReconstructMapPixels.getpixel_cell.
Qed.


(** C4. The exported data array is one-based. On an image of at least
    one tile each way the run succeeds; the flattened [data] array has
    one entry per cell, in row-major order, and the entry of cell
    [(tx, ty)] is its Tile ID plus 1; so every entry lies in
    [1 .. unique_count] and 0 does not occur. *)
Theorem exported_references_one_based (map_image : Image rgba) :
  0 < tiles_x map_image → 0 < tiles_y map_image →
  ∃ out layer,
    main map_image = Some out
    ∧ layers (overworld_json out) = [layer]
    ∧ length (layer_data layer) = tiles_y map_image * tiles_x map_image
    ∧ (∀ tx ty, tx < tiles_x map_image → ty < tiles_y map_image →
        ∃ tile_id,
          (extract_unique_tiles_from_map map_image).1
            !! tile_hash (cell_tile map_image (tx, ty)) = Some tile_id
          ∧ layer_data layer !! (ty * tiles_x map_image + tx) = Some (tile_id + 1))
    ∧ Forall (λ ref, 1 ≤ ref ≤ unique_count out) (layer_data layer)
    ∧ 0 ∉ layer_data layer.
Proof.
  intros Hx Hy.
  destruct (main_success map_image Hx Hy)
    as (tilemap & atlas & c & r & doc & Hmap & Hatlas & Hdoc & Hmain).
  destruct (generate_tiled_json_data _ _ _ _ _ Hdoc)
    as (layer & tileset & Hlayers & Hdata & _).
  destruct (tilemap_data_range map_image tilemap Hmap) as [Hlen Hrange].
  eexists _, layer. split; [exact Hmain|]. cbn [overworld_json unique_count].
  rewrite Hdata. split_and!; [done..| |done|].
  - intros tx ty Htx Hty.
    destruct (tilemap_data_lookup map_image tx ty Htx Hty)
      as (tilemap' & i & Hmap' & Hi & _ & Hlook).
    exists i. split; [done|]. congruence.
  - intros H0. eapply Forall_forall in Hrange; [|exact H0]. lia.
Qed.


(** C5, on a solid one-tile map. The run makes an atlas of one row,
    [TILE_SIZE] pixels high, but the tileset descriptor of the exported
    document gives [imageheight] as two rows: [(num_tiles //
    tiles_per_row + 1) * TILE_SIZE] counts a row too many whenever the
    tile count is a multiple of the column count. [imagewidth] is the
    width of the atlas. *)
Theorem descriptor_height_off_by_a_row :
  ∃ out tileset,
    main solid = Some out
    ∧ tilesets (overworld_json out) = [tileset]
    ∧ unique_count out = 1
    ∧ tilecount tileset = 1
    ∧ columns tileset = 1
    ∧ height (tileset_png out) = 1 * TILE_SIZE
    ∧ imageheight tileset = 2 * TILE_SIZE
    ∧ imagewidth tileset = width (tileset_png out).
Proof.
  eexists _, _. split; [vm_compute; reflexivity|].
  split; [reflexivity|]. by vm_compute.
Qed.


(** C7. Square-ish packing. For a non-empty list of [TILE_SIZE]
    square tiles, [create_tileset_image] produces an atlas with
    [columns = ceil(sqrt(count))] (the least [c] with [count <= c * c])
    and [rows = ceil(count / columns)] (the least [r] with [count <= r *
    columns]), of [columns * TILE_SIZE] by [rows * TILE_SIZE] pixels, in
    which the tile at list index [i] occupies the square at pixel
    position [((i % columns) * TILE_SIZE, (i // columns) * TILE_SIZE)]. *)
Theorem square_packing (unique_tiles : list ndarray) :
  0 < length unique_tiles →
  Forall (shape TILE_SIZE TILE_SIZE) unique_tiles →
  ∃ atlas columns rows,
    create_tileset_image unique_tiles = Some (atlas, (columns, rows))
    ∧ columns = ceil_sqrt (length unique_tiles)
    ∧ (columns - 1) * (columns - 1) < length unique_tiles ≤ columns * columns
    ∧ (rows - 1) * columns < length unique_tiles ≤ rows * columns
    ∧ width atlas = columns * TILE_SIZE
    ∧ height atlas = rows * TILE_SIZE
    ∧ ∀ i tile dx dy,
        unique_tiles !! i = Some tile → dx < TILE_SIZE → dy < TILE_SIZE →
        getpixel atlas (i mod columns * TILE_SIZE + dx)
                       (i / columns * TILE_SIZE + dy)
        = nth dx (nth dy tile []) zero.
Proof.
  intros Hn Hsh.
  destruct (create_tileset_image_is_Some unique_tiles Hn)
    as (atlas & r & Himg & Hr & Hw & Hh).
  destruct (ceil_sqrt_spec _ Hn) as (Hc & Hlo & Hhi).
  pose proof (ceil_div_spec _ _ _ Hr) as (_ & Hle & Hlt).
  exists atlas, (ceil_sqrt (length unique_tiles)), r.
  split_and!; [done|done|lia|lia|nia|lia|done|done|].
  intros i tile dx dy Hi Hdx Hdy.
  pose proof (create_tileset_image_crop unique_tiles atlas _ r i tile Hsh Himg Hi) as Hcrop.
  rewrite extract_tile_eq in Hcrop.
  apply (f_equal (λ t : ndarray, nth dx (nth dy t []) zero)) in Hcrop.
  rewrite <- Hcrop.
  rewrite (nth_lookup_Some _ dy _
            (map (λ i0, getpixel atlas (i mod ceil_sqrt (length unique_tiles) * TILE_SIZE + i0)
               (i / ceil_sqrt (length unique_tiles) * TILE_SIZE + dy)) (seq 0 TILE_SIZE))).
  - symmetry. apply nth_lookup_Some.
    by rewrite list_lookup_fmap, lookup_seq_lt.
  - by rewrite list_lookup_fmap, lookup_seq_lt.
Qed.

(** C9. Screen records. Every record of [generate_screen_metadata] has
    [pixel_x = tile_x * TILE_SIZE] and [pixel_y = tile_y * TILE_SIZE],
    with no separator offset: the segmented origin of
    [create_tileset.get_screen_pixel_origin] exceeds it by [grid_x *
    SEPARATOR_WIDTH] and [grid_y * SEPARATOR_WIDTH]. The [id] fields are
    [0 .. SCREENS_WIDE * SCREENS_TALL - 1] in list order, with [id =
    grid_y * SCREENS_WIDE + grid_x]. *)
Theorem screen_records_unseparated :
  Forall (λ s,
      pixel_x s = tile_x s * TILE_SIZE
      ∧ pixel_y s = tile_y s * TILE_SIZE
      ∧ grid_x s < SCREENS_WIDE ∧ grid_y s < SCREENS_TALL
      ∧ id s = grid_y s * SCREENS_WIDE + grid_x s
      ∧ CreateTileset.get_screen_pixel_origin (grid_x s) (grid_y s)
        = (pixel_x s + grid_x s * CreateTileset.SEPARATOR_WIDTH,
           pixel_y s + grid_y s * CreateTileset.SEPARATOR_WIDTH))
    (screens generate_screen_metadata)
  ∧ id <$> screens generate_screen_metadata = seq 0 (SCREENS_WIDE * SCREENS_TALL)
  ∧ (∀ sx sy, sx < SCREENS_WIDE → sy < SCREENS_TALL →
       screens generate_screen_metadata !! (sy * SCREENS_WIDE + sx)
       = Some (screen_record (sx, sy))).
Proof.
  rewrite screens_grid. split_and!.
  - apply Forall_fmap, Forall_forall. intros [sx sy] [Hx Hy]%elem_of_grid.
    cbn [screen_record pixel_x pixel_y tile_x tile_y grid_x grid_y id fst snd compose].
    split_and!; try done.
    unfold CreateTileset.get_screen_pixel_origin, CreateTileset.SCREEN_WIDTH_PX,
      CreateTileset.SCREEN_HEIGHT_PX, CreateTileset.SCREEN_TILES_X,
      CreateTileset.SCREEN_TILES_Y, CreateTileset.TILE_SIZE,
      CreateTileset.SEPARATOR_WIDTH, SCREEN_WIDTH_TILES, SCREEN_HEIGHT_TILES, TILE_SIZE.
    f_equal; lia.
  - rewrite <- list_fmap_compose.
    rewrite (Nat.mul_comm SCREENS_WIDE). apply grid_positions.
  - intros sx sy Hx Hy. by rewrite list_lookup_fmap, grid_lookup.
Qed.

(** C10. Trailing pixels do not matter. Two images of the same size
    that agree on every pixel with [x < (width // TILE_SIZE) * TILE_SIZE]
    and [y < (height // TILE_SIZE) * TILE_SIZE] give the same table and
    the same list of unique tiles, and the same tilemap (for any table,
    and for their own). *)
Theorem trailing_pixels_ignored (image1 image2 : Image rgba) :
  image_size image1 = image_size image2 →
  (∀ x y, x < width image1 / TILE_SIZE * TILE_SIZE →
          y < height image1 / TILE_SIZE * TILE_SIZE →
          load image1 x y = load image2 x y) →
  extract_unique_tiles_from_map image1 = extract_unique_tiles_from_map image2
  ∧ (∀ tile_to_id,
       build_tile_map image1 tile_to_id = build_tile_map image2 tile_to_id)
  ∧ build_tile_map image1 (extract_unique_tiles_from_map image1).1
    = build_tile_map image2 (extract_unique_tiles_from_map image2).1.
Proof.
  intros Hsize Hagree.
  assert (tiles_x image1 = tiles_x image2 ∧ tiles_y image1 = tiles_y image2)
    as [Htx Hty].
  { injection Hsize as Hw Hh. unfold tiles_x, tiles_y. by rewrite Hw, Hh. }
  assert (extract_unique_tiles_from_map image1
          = extract_unique_tiles_from_map image2) as Hscan.
  { rewrite !extract_unique_tiles_dedup. f_equal. unfold cell_tiles.
    rewrite <- Htx, <- Hty. apply list_fmap_ext.
    intros p [tx ty] [Hx [Hy _]]%grid_lookup_inv. by apply cell_tile_agree. }
  assert (∀ tile_to_id,
    build_tile_map image1 tile_to_id = build_tile_map image2 tile_to_id) as Hmap.
  { intros tile_to_id. rewrite !build_tile_map_eq, <- Htx, <- Hty.
    apply Forall_mapM_ext, Forall_forall. intros ty [_ Hy]%elem_of_seq.
    apply Forall_mapM_ext, Forall_forall. intros tx [_ Hx]%elem_of_seq.
    rewrite (cell_tile_agree image1 image2 tx ty); [done..|lia|lia]. }
  split_and!; [done..|]. by rewrite Hscan, Hmap.
Qed.

(** C3 on the blue cell of [two_tone]. *)
Lemma atlas_round_trip_witness :
  ∃ out layer tileset ref,
    main two_tone = Some out
    ∧ layers (overworld_json out) = [layer]
    ∧ tilesets (overworld_json out) = [tileset]
    ∧ layer_data layer !! (0 * tiles_x two_tone + 1) = Some ref
    ∧ 1 ≤ ref
    ∧ let tile_id := ref - 1 in
      let px := tile_id mod columns tileset * TILE_SIZE in
      let py := tile_id / columns tileset * TILE_SIZE in
      let block := crop (tileset_png out) (px, py, px + TILE_SIZE, py + TILE_SIZE) in
      px + TILE_SIZE ≤ width (tileset_png out)
      ∧ py + TILE_SIZE ≤ height (tileset_png out)
      ∧ image_size block = (TILE_SIZE, TILE_SIZE)
      ∧ ∀ dx dy, dx < TILE_SIZE → dy < TILE_SIZE →
          load block dx dy
          = load two_tone (1 * TILE_SIZE + dx) (0 * TILE_SIZE + dy).
Proof.
  apply (atlas_round_trip two_tone 1 0); vm_compute; lia.
Defined.

(** C4 on [two_tone]. *)
Lemma exported_references_one_based_witness :
  ∃ out layer,
    main two_tone = Some out
    ∧ layers (overworld_json out) = [layer]
    ∧ length (layer_data layer) = tiles_y two_tone * tiles_x two_tone
    ∧ (∀ tx ty, tx < tiles_x two_tone → ty < tiles_y two_tone →
        ∃ tile_id,
          (extract_unique_tiles_from_map two_tone).1
            !! tile_hash (cell_tile two_tone (tx, ty)) = Some tile_id
          ∧ layer_data layer !! (ty * tiles_x two_tone + tx) = Some (tile_id + 1))
    ∧ Forall (λ ref, 1 ≤ ref ≤ unique_count out) (layer_data layer)
    ∧ 0 ∉ layer_data layer.
Proof.
  apply (exported_references_one_based two_tone);
    vm_compute; lia.
Defined.

(** C7 on the two tiles of [two_tone]. *)
Lemma square_packing_witness :
  ∃ atlas columns rows,
    create_tileset_image [cell_tile two_tone (0, 0); cell_tile two_tone (1, 0)]
      = Some (atlas, (columns, rows))
    ∧ columns = ceil_sqrt 2
    ∧ (columns - 1) * (columns - 1) < 2 ≤ columns * columns
    ∧ (rows - 1) * columns < 2 ≤ rows * columns
    ∧ width atlas = columns * TILE_SIZE
    ∧ height atlas = rows * TILE_SIZE
    ∧ ∀ i tile dx dy,
        [cell_tile two_tone (0, 0); cell_tile two_tone (1, 0)] !! i = Some tile →
        dx < TILE_SIZE → dy < TILE_SIZE →
        getpixel atlas (i mod columns * TILE_SIZE + dx)
                       (i / columns * TILE_SIZE + dy)
        = nth dx (nth dy tile []) zero.
Proof.
  apply (square_packing
           [cell_tile two_tone (0, 0); cell_tile two_tone (1, 0)]).
  - simpl. lia.
  - repeat constructor; vm_compute; repeat constructor.
Defined.

(** C10 on two images that differ in their last three columns only. *)
Lemma trailing_pixels_ignored_witness :
  extract_unique_tiles_from_map two_tone_padded
  = extract_unique_tiles_from_map two_tone_padded'
  ∧ (∀ tile_to_id,
       build_tile_map two_tone_padded tile_to_id
       = build_tile_map two_tone_padded' tile_to_id)
  ∧ build_tile_map two_tone_padded (extract_unique_tiles_from_map two_tone_padded).1
    = build_tile_map two_tone_padded' (extract_unique_tiles_from_map two_tone_padded').1.
Proof.
  apply (trailing_pixels_ignored two_tone_padded two_tone_padded').
  - reflexivity.
  - intros x y Hx Hy. change (width two_tone_padded / TILE_SIZE * TILE_SIZE) with 32 in Hx.
    simpl. destruct (Nat.ltb_spec x 16); [done|].
    destruct (Nat.ltb_spec x 32); [done|lia].
Defined.

(** C9 at the second screen of the first row. *)
Lemma screen_records_unseparated_witness :
  screens generate_screen_metadata !! (0 * SCREENS_WIDE + 1)
  = Some (screen_record (1, 0)).
Proof.
  apply (proj2 (proj2 screen_records_unseparated) 1 0);
    vm_compute; lia.
Defined.

End ReconstructMapProps.

Module CreateTilesetProps.
Import PIL CreateTileset CreateTilesetSpec CreateTilesetFacts Samples.

Section with_source.
Context {P : Type} `{Mode P}.
Variable md5 : bytes → string.
Variable to_rgb : P → rgb.

(** C6, as the code has it. When the size of the source differs from
    the expected size, the run prints the warning and still completes
    (it reaches the save of the output image). The scan does not follow
    the bounds of the image: it visits the cells of the configured
    geometry, all [SCREENS_X * SCREENS_Y * SCREEN_TILES_X *
    SCREEN_TILES_Y] of them, each cropped at the box the configuration
    gives it, and a pixel outside the image reads as zero. *)
Theorem mismatch_warns_and_scans_configured_grid (img : Image P) :
  image_size img ≠ expected_size →
  let run := main md5 to_rgb img in
  Warning ∈ stdout run
  ∧ Saved ∈ stdout run
  ∧ is_Some (output_img run)
  ∧ result run = fold_left (scan_step md5 img) scan_cells (mkScan ∅ [] 0)
  ∧ processed (result run)
    = SCREENS_X * SCREENS_Y * SCREEN_TILES_X * SCREEN_TILES_Y
  ∧ (∀ c, cell_tile img c = crop img (tile_box c))
  ∧ (∀ x y, ¬ (x < width img ∧ y < height img) → getpixel img x y = zero).
Proof.
  intros Hne run. subst run. unfold main. cbv zeta.
  cbn [stdout result output_img].
  destruct (paste_loop_is_Some md5 to_rgb img
    (new (OUTPUT_TILES_PER_ROW * TILE_SIZE,
          (size (unique_tiles (extract_all md5 img)) + OUTPUT_TILES_PER_ROW - 1)
            / OUTPUT_TILES_PER_ROW * TILE_SIZE) (RGB x00 x00 x00))) as [atlas Hatlas].
  rewrite Hatlas. apply mismatch_test in Hne. rewrite Hne.
  split_and!.
  - generalize (extract_all md5 img). intros st.
    rewrite !elem_of_app, !elem_of_cons. tauto.
  - generalize (extract_all md5 img). intros st.
    rewrite !elem_of_app, !elem_of_cons. tauto.
  - by eexists.
  - apply extract_all_fold.
  - apply processed_extract_all.
  - done.
  - intros x y Hout. unfold getpixel.
    destruct (Nat.ltb_spec x (width img)), (Nat.ltb_spec y (height img));
      simpl; try done. lia.
Qed.

End with_source.

(** C6, as stated, fails on a one-tile image: its size is not the
    expected one, and the scan crops tiles that lie outside its bounds
    (the first tile of screen (1, 0) is the box from x = 257 to 273);
    the image has one cell, the run processes all the configured ones. *)
Lemma tiny_is_scanned_outside_its_bounds :
  image_size tiny ≠ expected_size
  ∧ ¬ uses_actual_bounds tiny
  ∧ ((1, 0), (0, 0)) ∈ scan_cells
  ∧ tile_box ((1, 0), (0, 0)) = (257, 0, 273, 16)
  ∧ width tiny / TILE_SIZE * (height tiny / TILE_SIZE) = 1
  ∧ processed (result (main first_byte_digest keep_rgb tiny))
    = SCREENS_X * SCREENS_Y * SCREEN_TILES_X * SCREEN_TILES_Y.
Proof.
  assert (((1, 0), (0, 0)) ∈ scan_cells) as Hin.
  { apply elem_of_scan_cells. cbn [fst snd].
    unfold SCREENS_X, SCREENS_Y, SCREEN_TILES_X, SCREEN_TILES_Y. lia. }
  split_and!; [by vm_compute| |done|reflexivity|reflexivity|].
  - unfold uses_actual_bounds. intros Hall.
    eapply Forall_forall in Hall; [|exact Hin].
    vm_compute in Hall. lia.
  - unfold main. cbv zeta. cbn [result]. apply processed_extract_all.
Qed.

(** C8. Segmented addressing. The tile of cell [(region_x, region_y,
    local_x, local_y)] is the crop whose top-left pixel is [(region_x *
    (SCREEN_TILES_X * TILE_SIZE + SEPARATOR_WIDTH) + local_x * TILE_SIZE,
    region_y * (SCREEN_TILES_Y * TILE_SIZE + SEPARATOR_WIDTH) + local_y *
    TILE_SIZE)]; with 16 tiles of 16 pixels per screen row and a
    separator of 1, screen (1, 0) starts at pixel (257, 0). *)
Theorem segmented_cell_origin :
  (∀ (P : Type) (M : Mode P) (img : Image P)
     (region_x region_y local_x local_y : nat),
     let x := region_x * (CreateTileset.SCREEN_TILES_X * CreateTileset.TILE_SIZE
                          + CreateTileset.SEPARATOR_WIDTH)
              + local_x * CreateTileset.TILE_SIZE in
     let y := region_y * (CreateTileset.SCREEN_TILES_Y * CreateTileset.TILE_SIZE
                          + CreateTileset.SEPARATOR_WIDTH)
              + local_y * CreateTileset.TILE_SIZE in
     CreateTileset.get_screen_pixel_origin region_x region_y
     = (region_x * (CreateTileset.SCREEN_TILES_X * CreateTileset.TILE_SIZE
                    + CreateTileset.SEPARATOR_WIDTH),
        region_y * (CreateTileset.SCREEN_TILES_Y * CreateTileset.TILE_SIZE
                    + CreateTileset.SEPARATOR_WIDTH))
     ∧ CreateTileset.extract_tile img region_x region_y local_x local_y
       = crop img (x, y, x + CreateTileset.TILE_SIZE, y + CreateTileset.TILE_SIZE)
     ∧ ∀ dx dy,
         load (CreateTileset.extract_tile img region_x region_y local_x local_y) dx dy
         = getpixel img (x + dx) (y + dy))
  ∧ CreateTileset.SCREEN_TILES_X = 16
  ∧ CreateTileset.SCREEN_TILES_Y = 11
  ∧ CreateTileset.TILE_SIZE = 16
  ∧ CreateTileset.SEPARATOR_WIDTH = 1
  ∧ CreateTileset.get_screen_pixel_origin 1 0 = (257, 0).
Proof.
  split_and!; try reflexivity.
  intros P M img region_x region_y local_x local_y x y.
  split_and!; reflexivity.
Qed.

(** C6 on [tiny], whose size is not the expected one. *)
Lemma mismatch_warns_witness :
  let run := main first_byte_digest keep_rgb tiny in
  Warning ∈ stdout run
  ∧ Saved ∈ stdout run
  ∧ is_Some (output_img run)
  ∧ result run = fold_left (scan_step first_byte_digest tiny) scan_cells (mkScan ∅ [] 0)
  ∧ processed (result run)
    = SCREENS_X * SCREENS_Y * SCREEN_TILES_X * SCREEN_TILES_Y
  ∧ (∀ c, cell_tile tiny c = crop tiny (tile_box c))
  ∧ (∀ x y, ¬ (x < width tiny ∧ y < height tiny) → getpixel tiny x y = zero).
Proof.
  apply (mismatch_warns_and_scans_configured_grid
           first_byte_digest keep_rgb tiny).
  by vm_compute.
Defined.

End CreateTilesetProps.


(** * Further properties of the two tools *)

(** ** Further facts about first-occurrence numbering *)
Section dedup_more.
Context `{Countable K} {T : Type}.
Variable fp : T → K.
Variables (l : list T) (st : gmap K nat * list T).
Hypothesis Hinv : dedup_inv fp l st.

Lemma inv_NoDup_keys : NoDup (fp <$> st.2).
Proof.
  apply NoDup_alt. intros i j k Hi Hj.
  apply (inv_table _ _ _ Hinv) in Hi, Hj. congruence.
Qed.

Lemma inv_key_seen k : is_Some (st.1 !! k) ↔ ∃ t, t ∈ l ∧ fp t = k.
Proof.
  split.
  - intros [i Hi]. apply (inv_table _ _ _ Hinv) in Hi.
    rewrite list_lookup_fmap in Hi.
    destruct (st.2 !! i) as [t|] eqn:Ht; [|done]. injection Hi as <-.
    destruct (inv_first _ _ _ Hinv i t Ht) as [p Hp].
    exists t. split; [by eapply first_at_elem|done].
  - intros (t & Hin & <-). by apply (inv_seen _ _ _ Hinv).
Qed.

Lemma inv_size_table : size st.1 = length st.2.
Proof.
  rewrite <- size_dom.
  assert (dom st.1 = list_to_set (fp <$> st.2)) as ->.
  { apply set_eq. intros k. rewrite elem_of_dom, elem_of_list_to_set. split.
    - intros [i Hi]. apply (inv_table _ _ _ Hinv) in Hi.
      by eapply list_elem_of_lookup_2.
    - intros [i Hi]%list_elem_of_lookup. exists i.
      by apply (inv_table _ _ _ Hinv). }
  rewrite size_list_to_set by apply inv_NoDup_keys. by rewrite length_fmap.
Qed.
End dedup_more.

Section dedup_constant.
Context `{Countable K} {T : Type}.
Variable fp : T → K.

(** A stream that repeats one fingerprint yields one entry. *)
Lemma dedup_one_fingerprint (t : T) (l : list T) :
  Forall (λ u, fp u = fp t) l →
  dedup fp (t :: l) = ({[fp t := 0]}, [t]).
Proof.
  induction l as [|u l IH] using rev_ind; [done|].
  intros [Hl Hu%Forall_inv]%Forall_app.
  rewrite app_comm_cons, dedup_snoc, (IH Hl). unfold dedup_step. simpl.
  by rewrite Hu, lookup_singleton_eq.
Qed.
End dedup_constant.

(** Row-major indexing of the concatenation of rows of one length. *)
Lemma concat_lookup_rect {A} (rows : list (list A)) (w x y : nat) :
  Forall (λ row, length row = w) rows → x < w →
  concat rows !! (y * w + x) = rows !! y ≫= (.!! x).
Proof.
  intros Hrows Hx. revert y. induction Hrows as [|row rows Hrow _ IH]; intros y.
  - by rewrite lookup_nil.
  - destruct y as [|y]; simpl.
    + rewrite lookup_app_l by lia. done.
    + rewrite lookup_app_r by lia. rewrite <- IH. f_equal. lia.
Qed.

Lemma length_concat_rect {A} (rows : list (list A)) (w : nat) :
  Forall (λ row, length row = w) rows → length (concat rows) = length rows * w.
Proof.
  induction 1 as [|row rows Hrow _ IH]; simpl; [done|].
  rewrite length_app, IH. lia.
Qed.

(** ** tools/reconstruct_map.py, continued *)
Module ReconstructMapMore.
Import PIL Numpy ReconstructMap ReconstructMapSpec ReconstructMapFacts.

Lemma cell_tiles_elem_inv (map_image : Image rgba) (t : ndarray) :
  t ∈ cell_tiles map_image ↔
  ∃ tx ty, tx < tiles_x map_image ∧ ty < tiles_y map_image
           ∧ t = cell_tile map_image (tx, ty).
Proof.
  unfold cell_tiles. rewrite list_elem_of_fmap. split.
  - intros ([tx ty] & -> & [Hx Hy]%elem_of_grid). eauto.
  - intros (tx & ty & Hx & Hy & ->). exists (tx, ty). split; [done|].
    by apply elem_of_grid.
Qed.

Lemma build_tile_map_None_iff (map_image : Image rgba)
    (tile_to_id : gmap bytes nat) :
  build_tile_map map_image tile_to_id = None ↔
  ∃ tx ty, tx < tiles_x map_image ∧ ty < tiles_y map_image
    ∧ tile_to_id !! tile_hash (cell_tile map_image (tx, ty)) = None.
Proof.
  rewrite build_tile_map_eq, mapM_None, Exists_exists. split.
  - intros (ty & [_ Hy]%elem_of_seq & Hrow).
    apply mapM_None, Exists_exists in Hrow as (tx & [_ Hx]%elem_of_seq & Hcell).
    exists tx, ty. split_and!; [lia..|].
    by destruct (tile_to_id !! _).
  - intros (tx & ty & Hx & Hy & Hnone). exists ty.
    split; [apply elem_of_seq; lia|].
    apply mapM_None, Exists_exists. exists tx.
    split; [apply elem_of_seq; lia|]. by rewrite Hnone.
Qed.

Lemma build_tile_map_Some_inv (map_image : Image rgba)
    (tile_to_id : gmap bytes nat) (tilemap : list (list nat)) :
  build_tile_map map_image tile_to_id = Some tilemap →
  length tilemap = tiles_y map_image
  ∧ Forall (λ row, length row = tiles_x map_image) tilemap
  ∧ ∀ tx ty, tx < tiles_x map_image → ty < tiles_y map_image →
      ∃ tile_id,
        tile_to_id !! tile_hash (cell_tile map_image (tx, ty)) = Some tile_id
        ∧ tilemap !! ty ≫= (.!! tx) = Some (tile_id + 1).
Proof.
  rewrite build_tile_map_eq. intros Hmap.
  apply mapM_Some in Hmap.
  pose proof (Forall2_length _ _ _ Hmap) as Hlen. rewrite length_seq in Hlen.
  split_and!.
  - done.
  - apply Forall_lookup. intros ty row Hrow.
    destruct (Forall2_lookup_r _ _ _ _ _ Hmap Hrow) as (ty' & Hty & Hr).
    apply length_mapM in Hr. by rewrite length_seq in Hr.
  - intros tx ty Hx Hy.
    destruct (Forall2_lookup_l _ _ _ ty ty Hmap) as (row & Hrow & Hr).
    { by apply lookup_seq_lt. }
    apply mapM_Some in Hr.
    destruct (Forall2_lookup_l _ _ _ tx tx Hr) as (ref & Href & Hcell).
    { by apply lookup_seq_lt. }
    destruct (tile_to_id !! _) as [i|] eqn:Hi; [|done]. injection Hcell as <-.
    exists i. split; [done|]. by rewrite Hrow.
Qed.

Lemma table_key_is_cell (map_image : Image rgba) (block : ndarray) :
  shape TILE_SIZE TILE_SIZE block →
  is_Some ((extract_unique_tiles_from_map map_image).1 !! tile_hash block)
  ↔ block ∈ cell_tiles map_image.
Proof.
  intros Hshape. rewrite extract_unique_tiles_dedup.
  rewrite (inv_key_seen tile_hash _ _ (dedup_invariant _ _)). split.
  - intros (t & Hin & Heq).
    by rewrite <- (tile_hash_inj TILE_SIZE TILE_SIZE t block
                     (cell_tiles_shape _ _ Hin) Hshape Heq).
  - intros Hin. by exists block.
Qed.

Lemma unique_tile_of_block (map_image : Image rgba) (block : ndarray) (i : nat) :
  shape TILE_SIZE TILE_SIZE block →
  (extract_unique_tiles_from_map map_image).1 !! tile_hash block = Some i →
  (extract_unique_tiles_from_map map_image).2 !! i = Some block.
Proof.
  intros Hshape Hi.
  assert (block ∈ cell_tiles map_image) as Hin.
  { apply table_key_is_cell; [done|by eexists]. }
  apply cell_tiles_elem_inv in Hin as (tx & ty & Hx & Hy & ->).
  by apply unique_tile_of_cell.
Qed.

Lemma unique_tiles_member (map_image : Image rgba) (block : ndarray) :
  block ∈ (extract_unique_tiles_from_map map_image).2
  ↔ block ∈ cell_tiles map_image.
Proof.
  pose proof (dedup_invariant tile_hash (cell_tiles map_image)) as Hinv. split.
  - rewrite extract_unique_tiles_dedup.
    intros [i Hi]%list_elem_of_lookup.
    destruct (inv_first _ _ _ Hinv i block Hi) as [p Hp].
    by eapply first_at_elem.
  - intros (tx & ty & Hx & Hy & ->)%cell_tiles_elem_inv.
    destruct (cell_id_assigned map_image tx ty Hx Hy) as (i & Hi & _).
    eapply list_elem_of_lookup_2. by apply unique_tile_of_cell.
Qed.

Lemma unique_tiles_empty_iff (map_image : Image rgba) :
  (extract_unique_tiles_from_map map_image).2 = []
  ↔ tiles_x map_image = 0 ∨ tiles_y map_image = 0.
Proof.
  split.
  - intros Hnil. destruct (decide (tiles_x map_image = 0)) as [|Hx]; [by left|].
    destruct (decide (tiles_y map_image = 0)) as [|Hy]; [by right|].
    pose proof (unique_tiles_nonempty map_image). rewrite Hnil in *.
    simpl in *. lia.
  - intros Hzero.
    destruct ((extract_unique_tiles_from_map map_image).2) as [|t ts] eqn:E; [done|].
    assert (t ∈ cell_tiles map_image) as Hin.
    { apply unique_tiles_member. rewrite E. by left. }
    apply cell_tiles_elem_inv in Hin as (tx & ty & Hx & Hy & _). lia.
Qed.

Lemma tiles_zero (map_image : Image rgba) :
  (tiles_x map_image = 0 ↔ width map_image < TILE_SIZE)
  ∧ (tiles_y map_image = 0 ↔ height map_image < TILE_SIZE).
Proof.
  unfold tiles_x, tiles_y. pose proof TILE_SIZE_pos.
  split; apply Nat.div_small_iff; lia.
Qed.

Lemma main_None_small (map_image : Image rgba) :
  tiles_x map_image = 0 ∨ tiles_y map_image = 0 → main map_image = None.
Proof.
  intros Hempty%unique_tiles_empty_iff. unfold main.
  destruct (extract_unique_tiles_from_map map_image) as [m us].
  simpl in Hempty. subst us. by destruct (build_tile_map map_image m).
Qed.

(** What a successful run is made of. *)
Lemma main_Some_inv (map_image : Image rgba) (out : Output) :
  main map_image = Some out →
  0 < tiles_x map_image ∧ 0 < tiles_y map_image
  ∧ ∃ tilemap atlas c r doc,
      build_tile_map map_image (extract_unique_tiles_from_map map_image).1
        = Some tilemap
      ∧ create_tileset_image (extract_unique_tiles_from_map map_image).2
        = Some (atlas, (c, r))
      ∧ generate_tiled_json tilemap "tileset.png" c
          (length (extract_unique_tiles_from_map map_image).2) = Some doc
      ∧ out = {| tileset_png := atlas; overworld_json := doc;
                 screens_json := generate_screen_metadata;
                 unique_count := length (extract_unique_tiles_from_map map_image).2 |}.
Proof.
  intros Hmain.
  assert (0 < tiles_x map_image ∧ 0 < tiles_y map_image) as [Hx Hy].
  { destruct (decide (tiles_x map_image = 0)) as [Hz|];
      [rewrite main_None_small in Hmain by (by left); done|].
    destruct (decide (tiles_y map_image = 0)) as [Hz|];
      [rewrite main_None_small in Hmain by (by right); done|]. lia. }
  split_and!; [done..|].
  destruct (main_success map_image Hx Hy)
    as (tilemap & atlas & c & r & doc & Hmap & Hatlas & Hdoc & Hmain').
  exists tilemap, atlas, c, r, doc. split_and!; [done..|]. congruence.
Qed.

Lemma generate_tiled_json_inv (tilemap : list (list nat)) (path : string)
    (tiles_per_row num_tiles : nat) (doc : TiledMap) :
  generate_tiled_json tilemap path tiles_per_row num_tiles = Some doc →
  ∃ row0 layer tileset,
    tilemap !! 0 = Some row0 ∧ tiles_per_row ≠ 0
    ∧ layers doc = [layer] ∧ tilesets doc = [tileset]
    ∧ map_width doc = length row0 ∧ map_height doc = length tilemap
    ∧ layer_width layer = length row0 ∧ layer_height layer = length tilemap
    ∧ layer_data layer = concat tilemap
    ∧ columns tileset = tiles_per_row ∧ tilecount tileset = num_tiles
    ∧ firstgid tileset = 1
    ∧ imagewidth tileset = tiles_per_row * TILE_SIZE
    ∧ tileset_tilewidth tileset = TILE_SIZE
    ∧ tileset_tileheight tileset = TILE_SIZE.
Proof.
  unfold generate_tiled_json. destruct (tilemap !! 0) as [row0|]; [|done].
  cbn [mbind option_bind]. case_guard; [|done]. cbn [mbind option_bind].
  intros [= <-]. eexists row0, _, _.
  cbn [layers tilesets map_width map_height layer_width layer_height layer_data
       columns tilecount firstgid imagewidth tileset_tilewidth tileset_tileheight].
  rewrite fold_left_app_concat. split_and!; done.
Qed.

(** A pixel that lies in no slot keeps the colour it had before the
    paste loop. *)
Lemma paste_loop_outside (c : nat) (us : list ndarray) (init : Image rgba)
    (x y : nat) :
  Forall (shape TILE_SIZE TILE_SIZE) us →
  (∀ i, i < length us →
     ¬ (i mod c * TILE_SIZE ≤ x < i mod c * TILE_SIZE + TILE_SIZE
        ∧ i / c * TILE_SIZE ≤ y < i / c * TILE_SIZE + TILE_SIZE)) →
  load (fold_left (paste_tile c) (enumerate us) init) x y = load init x y.
Proof.
  induction us as [|t us IH] using rev_ind; [done|].
  intros Hall Hout. apply Forall_app in Hall as [Hsh Ht].
  apply Forall_inv in Ht. destruct (fromarray_size t Ht) as [Hw Hh].
  rewrite enumerate_snoc, fold_left_app. cbn [fold_left].
  unfold paste_tile at 1. cbv zeta. cbn [paste load]. rewrite Hw, Hh.
  replace (_ && _ && _ && _) with false.
  - apply IH; [done|]. intros i Hi. apply Hout. rewrite length_app. simpl. lia.
  - symmetry. apply not_true_is_false. intros Hb.
    rewrite !andb_true_iff, !Nat.leb_le, !Nat.ltb_lt in Hb.
    apply (Hout (length us)); [rewrite length_app; simpl; lia|lia].
Qed.

End ReconstructMapMore.


Lemma for_each_raising_app {St A} (f : St → A → option St) (l1 l2 : list A) (s : St) :
  for_each_raising f (l1 ++ l2) s
  = for_each_raising f l1 s ≫= for_each_raising f l2.
Proof.
  revert s. induction l1 as [|a l1 IH]; intros s; simpl; [done|].
  destruct (f s a); simpl; [apply IH|done].
Qed.

Section dedup_length.
Context `{Countable K} {T : Type}.
Variable fp : T → K.

Lemma dedup_length_le (l : list T) : length (dedup fp l).2 ≤ length l.
Proof.
  induction l as [|t l IH] using rev_ind; [done|].
  rewrite dedup_snoc, length_app. unfold dedup_step.
  destruct (_ !! fp t); simpl; [lia|]. rewrite length_app. simpl. lia.
Qed.

Lemma dedup_length_pos (l : list T) : l ≠ [] → 0 < length (dedup fp l).2.
Proof.
  intros Hne. destruct l as [|t l]; [done|].
  destruct (inv_assigned fp _ _ (dedup_invariant fp (t :: l)) t) as (i & _ & Hi);
    [by left|lia].
Qed.
End dedup_length.

Lemma paste_size {P} (dst src : PIL.Image P) (pos : nat * nat) :
  PIL.width (PIL.paste dst src pos) = PIL.width dst
  ∧ PIL.height (PIL.paste dst src pos) = PIL.height dst.
Proof. by destruct pos. Qed.

Lemma paste_load {P} (dst src : PIL.Image P) (px py x y : nat) :
  PIL.load (PIL.paste dst src (px, py)) x y
  = if (px <=? x) && (x <? px + PIL.width src)
       && (py <=? y) && (y <? py + PIL.height src)
    then PIL.load src (x - px) (y - py)
    else PIL.load dst x y.
Proof. done. Qed.

(** A pixel lies in at most one slot of a grid of [c] columns of
    [ts]-pixel squares. *)
Lemma slots_apart (ts c i j x y : nat) :
  0 < ts → 0 < c →
  i mod c * ts ≤ x < i mod c * ts + ts → i / c * ts ≤ y < i / c * ts + ts →
  j mod c * ts ≤ x < j mod c * ts + ts → j / c * ts ≤ y < j / c * ts + ts →
  i = j.
Proof.
  intros Hts Hc Hix Hiy Hjx Hjy.
  assert (i mod c = j mod c) as Hm by nia.
  assert (i / c = j / c) as Hd by nia.
  rewrite (Nat.div_mod i c), (Nat.div_mod j c) by lia. congruence.
Qed.

Lemma slot_of_pixel (ts c i x y : nat) :
  0 < ts → 0 < c →
  i mod c * ts ≤ x < i mod c * ts + ts → i / c * ts ≤ y < i / c * ts + ts →
  y / ts * c + x / ts = i.
Proof.
  intros Hts Hc Hx Hy.
  assert (x / ts = i mod c) as ->.
  { symmetry. apply (Nat.div_unique x ts _ (x - i mod c * ts)); lia. }
  assert (y / ts = i / c) as ->.
  { symmetry. apply (Nat.div_unique y ts _ (y - i / c * ts)); lia. }
  pose proof (Nat.div_mod i c ltac:(lia)). lia.
Qed.

(** ** tools/create_tileset.py, continued *)


Module CreateTilesetMore.
Import PIL CreateTileset CreateTilesetSpec CreateTilesetFacts CreateTilesetPaste.

(** Pixel coordinates decode to the cell and the offset they came from. *)
Lemma axis_decode (tiles region local d : nat) :
  local < tiles → d < TILE_SIZE →
  let span := tiles * TILE_SIZE + SEPARATOR_WIDTH in
  let p := region * span + local * TILE_SIZE + d in
  p / span = region
  ∧ p mod span = local * TILE_SIZE + d
  ∧ p mod span < tiles * TILE_SIZE
  ∧ p mod span / TILE_SIZE = local
  ∧ p mod span mod TILE_SIZE = d.
Proof.
  intros Hlocal Hd span p.
  assert (0 < TILE_SIZE) as Hts by (unfold TILE_SIZE; lia).
  assert (local * TILE_SIZE + d < tiles * TILE_SIZE) as Hlt by nia.
  assert (local * TILE_SIZE + d < span) as Hspan by (unfold span; lia).
  assert (p mod span = local * TILE_SIZE + d) as Hmod.
  { symmetry. apply (Nat.mod_unique p span region); [done|]. unfold p. lia. }
  split_and!.
  - symmetry. apply (Nat.div_unique p span region (local * TILE_SIZE + d)); [done|].
    unfold p. lia.
  - done.
  - by rewrite Hmod.
  - rewrite Hmod. symmetry.
    apply (Nat.div_unique _ TILE_SIZE local d); [done|]. lia.
  - rewrite Hmod. symmetry.
    apply (Nat.mod_unique _ TILE_SIZE local d); [done|]. lia.
Qed.


Lemma last_cell_in_scan :
  ((SCREENS_X - 1, SCREENS_Y - 1), (SCREEN_TILES_X - 1, SCREEN_TILES_Y - 1))
  ∈ scan_cells.
Proof.
  apply elem_of_scan_cells. cbn [fst snd].
  unfold SCREENS_X, SCREENS_Y, SCREEN_TILES_X, SCREEN_TILES_Y. lia.
Qed.

Section with_source.
Context {P : Type} `{Mode P}.
Variable md5 : bytes → string.
Variable to_rgb : P → rgb.

Lemma cell_tile_size (img : Image P) (c : (nat * nat) * (nat * nat)) :
  width (cell_tile img c) = TILE_SIZE ∧ height (cell_tile img c) = TILE_SIZE.
Proof.
  unfold cell_tile, extract_tile, get_screen_pixel_origin. cbn [crop width height].
  lia.
Qed.

(** The paste loop of [main] over a dictionary [d] of tiles and an
    order of keys. *)
Section paste_loop.
Variable d : gmap string (Image P).
Hypothesis d_tiles : ∀ h t, d !! h = Some t →
  width t = TILE_SIZE ∧ height t = TILE_SIZE.


Lemma output_paste_loop (order : list string) (init atlas : Image rgb) :
  for_each_raising (paste_step to_rgb d) (enumerate order) init = Some atlas →
  width atlas = width init ∧ height atlas = height init
  ∧ (∀ i h t dx dy,
       order !! i = Some h → d !! h = Some t →
       dx < TILE_SIZE → dy < TILE_SIZE →
       load atlas (i mod OUTPUT_TILES_PER_ROW * TILE_SIZE + dx)
                  (i / OUTPUT_TILES_PER_ROW * TILE_SIZE + dy)
       = to_rgb (load t dx dy))
  ∧ (∀ x y,
       (∀ i, i < length order →
          ¬ (i mod OUTPUT_TILES_PER_ROW * TILE_SIZE ≤ x
               < i mod OUTPUT_TILES_PER_ROW * TILE_SIZE + TILE_SIZE
             ∧ i / OUTPUT_TILES_PER_ROW * TILE_SIZE ≤ y
               < i / OUTPUT_TILES_PER_ROW * TILE_SIZE + TILE_SIZE)) →
       load atlas x y = load init x y).
Proof.
  assert (0 < TILE_SIZE) as Hts by (unfold TILE_SIZE; lia).
  assert (0 < OUTPUT_TILES_PER_ROW) as Hc by (unfold OUTPUT_TILES_PER_ROW; lia).
  revert atlas. induction order as [|h' order IH] using rev_ind; intros atlas.
  - simpl. intros [= <-]. split_and!; [done..| |done].
    intros i h t dx dy Hi. by rewrite lookup_nil in Hi.
  - rewrite ReconstructMapFacts.enumerate_snoc, for_each_raising_app.
    destruct (for_each_raising (paste_step to_rgb d) (enumerate order) init)
      as [prev|] eqn:Hprev; [|done].
    destruct (IH prev eq_refl) as (Hw & Hh & Hin & Hout). clear IH.
    cbn [mbind option_bind for_each_raising]. unfold paste_step at 1.
    destruct (d !! h') as [t'|] eqn:Ht'; [|done].
    cbn [mbind option_bind]. intros Heq. apply (inj Some) in Heq. subst atlas.
    destruct (d_tiles h' t' Ht') as [Hwt Hht].
    destruct (paste_size prev (convert to_rgb t')
      (length order mod OUTPUT_TILES_PER_ROW * TILE_SIZE,
       length order / OUTPUT_TILES_PER_ROW * TILE_SIZE)) as [-> ->].
    split_and!; [done..| |].
    + intros i h t dx dy Hi Ht Hdx Hdy. rewrite paste_load.
      change (width (convert to_rgb t')) with (width t').
      change (height (convert to_rgb t')) with (height t').
      rewrite Hwt, Hht.
      apply lookup_app_Some in Hi as [Hi|[Hge Hi]].
      * pose proof (lookup_lt_Some _ _ _ Hi) as Hlt.
        replace (_ && _ && _ && _) with false; [by eapply Hin|].
        symmetry. apply not_true_is_false. intros Hb.
        rewrite !andb_true_iff, !Nat.leb_le, !Nat.ltb_lt in Hb.
        assert (i = length order); [|lia].
        apply (slots_apart TILE_SIZE OUTPUT_TILES_PER_ROW i (length order)
                 (i mod OUTPUT_TILES_PER_ROW * TILE_SIZE + dx)
                 (i / OUTPUT_TILES_PER_ROW * TILE_SIZE + dy)); lia.
      * apply list_lookup_singleton_Some in Hi as [Hi <-].
        assert (i = length order) as -> by lia.
        rewrite Ht' in Ht. apply (inj Some) in Ht. subst t'.
        replace (_ && _ && _ && _) with true.
        -- change (load (convert to_rgb t) ?a ?b) with (to_rgb (load t a b)).
           by rewrite !Nat.add_sub'.
        -- symmetry. rewrite !andb_true_iff, !Nat.leb_le, !Nat.ltb_lt. lia.
    + intros x y Hfree. rewrite paste_load.
      change (width (convert to_rgb t')) with (width t').
      change (height (convert to_rgb t')) with (height t').
      rewrite Hwt, Hht.
      replace (_ && _ && _ && _) with false.
      * apply Hout. intros i Hi. apply Hfree. rewrite length_app. simpl. lia.
      * symmetry. apply not_true_is_false. intros Hb.
        rewrite !andb_true_iff, !Nat.leb_le, !Nat.ltb_lt in Hb.
        apply (Hfree (length order)); [rewrite length_app; simpl; lia|lia].
Qed.
End paste_loop.

(** What the dictionary of a scan holds, read off the numbering. *)
Section against_numbering.
Variables (st : @scan P) (g : gmap string nat * list (Image P)).
Variables (l : list (Image P)) (n : nat).
Hypothesis Hsim : sim md5 st g n.
Hypothesis Hinv : dedup_inv (tile_hash md5) l g.

Lemma sim_unique_tiles_first (h : string) (t : Image P) :
  unique_tiles st !! h = Some t →
  tile_hash md5 t = h ∧ ∃ p, first_at (tile_hash md5) l p t.
Proof.
  rewrite (sim_tiles _ _ _ _ Hsim).
  destruct (g.1 !! h) as [i|] eqn:Hi; [|done]. simpl. intros Ht.
  apply (inv_table _ _ _ Hinv) in Hi. rewrite list_lookup_fmap, Ht in Hi.
  injection Hi as <-. split; [done|]. by apply (inv_first _ _ _ Hinv i).
Qed.

Lemma sim_unique_tiles_dom (h : string) :
  is_Some (unique_tiles st !! h) ↔ h ∈ tile_order st.
Proof.
  rewrite (sim_order _ _ _ _ Hsim). split.
  - intros [t Ht]. rewrite (sim_tiles _ _ _ _ Hsim) in Ht.
    destruct (g.1 !! h) as [i|] eqn:Hi; [|done].
    apply (inv_table _ _ _ Hinv) in Hi. by eapply list_elem_of_lookup_2.
  - intros [i Hi]%list_elem_of_lookup.
    eapply (sim_unique_tiles_lookup md5 st g l n Hsim Hinv i).
    by rewrite (sim_order _ _ _ _ Hsim).
Qed.
End against_numbering.

(** The scan of any list of cells [cs]. *)
Section scan_of_cells.
Variables (img : Image P) (cs : list ((nat * nat) * (nat * nat))).

Lemma scan_tile_order_cells (h : string) :
  h ∈ tile_order (fold_left (scan_step md5 img) cs (mkScan ∅ [] 0)) ↔ ∃ c, c ∈ cs ∧ tile_hash md5 (cell_tile img c) = h.
Proof.
  pose proof (scan_sim md5 img cs) as Hsim.
  pose proof (dedup_invariant (tile_hash md5) (cell_tile img <$> cs)) as Hinv.
  rewrite (sim_order _ _ _ _ Hsim).
  transitivity (is_Some ((dedup (tile_hash md5) (cell_tile img <$> cs)).1 !! h)).
  - split.
    + intros [i Hi]%list_elem_of_lookup. exists i. by apply (inv_table _ _ _ Hinv).
    + intros [i Hi]. apply (inv_table _ _ _ Hinv) in Hi.
      by eapply list_elem_of_lookup_2.
  - rewrite (inv_key_seen _ _ _ Hinv). split.
    + intros (t & (c & -> & Hc)%list_elem_of_fmap & Ht). eauto.
    + intros (c & Hc & Hh). exists (cell_tile img c).
      split; [by apply list_elem_of_fmap_2|done].
Qed.

Lemma scan_dictionary (h : string) (tile : Image P) :
  unique_tiles (fold_left (scan_step md5 img) cs (mkScan ∅ [] 0)) !! h = Some tile →
  tile_hash md5 tile = h
  ∧ ∃ p c, cs !! p = Some c ∧ tile = cell_tile img c
      ∧ ∀ q c', q < p → cs !! q = Some c' →
          tile_hash md5 (cell_tile img c') ≠ h.
Proof.
  pose proof (scan_sim md5 img cs) as Hsim.
  pose proof (dedup_invariant (tile_hash md5) (cell_tile img <$> cs)) as Hinv.
  intros Ht.
  destruct (sim_unique_tiles_first _ _ _ _ Hsim Hinv h tile Ht)
    as (Hh & p & Hp & Hfirst).
  split; [done|]. rewrite list_lookup_fmap in Hp.
  destruct (cs !! p) as [c|] eqn:Hc; [|done]. injection Hp as <-.
  exists p, c. split_and!; [done..|]. intros q c' Hq Hc'.
  rewrite <- Hh. apply (Hfirst q); [done|]. by rewrite list_lookup_fmap, Hc'.
Qed.

Lemma scan_dictionary_dom (h : string) :
  is_Some (unique_tiles (fold_left (scan_step md5 img) cs (mkScan ∅ [] 0)) !! h) ↔ h ∈ tile_order (fold_left (scan_step md5 img) cs (mkScan ∅ [] 0)).
Proof.
  pose proof (scan_sim md5 img cs) as Hsim.
  pose proof (dedup_invariant (tile_hash md5) (cell_tile img <$> cs)) as Hinv.
  apply (sim_unique_tiles_dom _ _ _ _ Hsim Hinv).
Qed.

Lemma scan_dictionary_tile_size (h : string) (tile : Image P) :
  unique_tiles (fold_left (scan_step md5 img) cs (mkScan ∅ [] 0)) !! h = Some tile →
  width tile = TILE_SIZE ∧ height tile = TILE_SIZE.
Proof.
  intros (_ & p & c & _ & -> & _)%scan_dictionary. apply cell_tile_size.
Qed.

Lemma scan_counts :
  processed (fold_left (scan_step md5 img) cs (mkScan ∅ [] 0)) = length cs
  ∧ size (unique_tiles (fold_left (scan_step md5 img) cs (mkScan ∅ [] 0))) = length (tile_order (fold_left (scan_step md5 img) cs (mkScan ∅ [] 0)))
  ∧ length (tile_order (fold_left (scan_step md5 img) cs (mkScan ∅ [] 0))) ≤ length cs
  ∧ (cs ≠ [] → 0 < length (tile_order (fold_left (scan_step md5 img) cs (mkScan ∅ [] 0)))).
Proof.
  pose proof (scan_sim md5 img cs) as Hsim.
  pose proof (dedup_invariant (tile_hash md5) (cell_tile img <$> cs)) as Hinv.
  pose proof (dedup_length_le (tile_hash md5) (cell_tile img <$> cs)) as Hle.
  rewrite length_fmap in Hle.
  split_and!.
  - apply (sim_processed _ _ _ _ Hsim).
  - apply (sim_size_unique_tiles md5 (fold_left (scan_step md5 img) cs (mkScan ∅ [] 0)) _ _ _ Hsim Hinv).
  - by rewrite (sim_length_tile_order md5 (fold_left (scan_step md5 img) cs (mkScan ∅ [] 0)) _ _ Hsim).
  - intros Hne. rewrite (sim_length_tile_order md5 (fold_left (scan_step md5 img) cs (mkScan ∅ [] 0)) _ _ Hsim).
    apply dedup_length_pos. by destruct cs.
Qed.
Lemma scan_first_entry :
  cs ≠ [] →
  ∃ h tile, tile_order (fold_left (scan_step md5 img) cs (mkScan ∅ [] 0)) !! 0 = Some h ∧ unique_tiles (fold_left (scan_step md5 img) cs (mkScan ∅ [] 0)) !! h = Some tile.
Proof.
  intros Hne. destruct scan_counts as (_ & _ & _ & Hpos).
  specialize (Hpos Hne).
  destruct (lookup_lt_is_Some_2 _ 0 Hpos) as [h Hh].
  assert (is_Some (unique_tiles (fold_left (scan_step md5 img) cs (mkScan ∅ [] 0)) !! h)) as [tile Ht].
  { apply scan_dictionary_dom. by eapply list_elem_of_lookup_2. }
  by exists h, tile.
Qed.
End scan_of_cells.

Lemma scan_cells_nonempty : scan_cells ≠ [].
Proof.
  intros Hnil. pose proof last_cell_in_scan as Hin. rewrite Hnil in Hin.
  by apply elem_of_nil in Hin.
Qed.

(** The scan of [main] always has a first entry. *)
Lemma first_entry_exists (img : Image P) :
  ∃ h tile,
    tile_order (extract_all md5 img) !! 0 = Some h
    ∧ unique_tiles (extract_all md5 img) !! h = Some tile.
Proof.
  rewrite extract_all_fold.
  exact (scan_first_entry img scan_cells scan_cells_nonempty).
Qed.

(** The saved image is the paste loop over the scan. *)
Lemma main_output_img (img : Image P) :
  output_img (main md5 to_rgb img)
  = for_each_raising
      (paste_step to_rgb (unique_tiles (extract_all md5 img)))
      (enumerate (tile_order (extract_all md5 img)))
      (new (OUTPUT_TILES_PER_ROW * TILE_SIZE,
            (size (unique_tiles (extract_all md5 img)) + OUTPUT_TILES_PER_ROW - 1)
              / OUTPUT_TILES_PER_ROW * TILE_SIZE) (RGB x00 x00 x00)).
Proof. reflexivity. Qed.

End with_source.
End CreateTilesetMore.

(** * Further properties: errors, edges and invariants *)

Module ReconstructMapExtras.
Import PIL Numpy ReconstructMap ReconstructMapSpec ReconstructMapFacts.
Import ReconstructMapMore Samples.

(** X1. [build_tile_map] raises KeyError exactly when some grid cell of
    the image has a fingerprint that the table does not contain. *)
Theorem build_tile_map_key_error (map_image : Image rgba)
    (tile_to_id : gmap bytes nat) :
  build_tile_map map_image tile_to_id = None ↔
  ∃ tx ty, tx < tiles_x map_image ∧ ty < tiles_y map_image
    ∧ tile_to_id !! tile_hash (cell_tile map_image (tx, ty)) = None.
Proof. apply build_tile_map_None_iff. Qed.

(** X2. Whatever table it is given, a tilemap that [build_tile_map]
    returns has [tiles_y] rows of [tiles_x] entries, and the entry of
    cell [(tx, ty)] is the table's ID of the cell's fingerprint plus 1. *)
Theorem build_tile_map_entries (map_image : Image rgba)
    (tile_to_id : gmap bytes nat) (tilemap : list (list nat)) :
  build_tile_map map_image tile_to_id = Some tilemap →
  length tilemap = tiles_y map_image
  ∧ Forall (λ row, length row = tiles_x map_image) tilemap
  ∧ ∀ tx ty, tx < tiles_x map_image → ty < tiles_y map_image →
      ∃ tile_id,
        tile_to_id !! tile_hash (cell_tile map_image (tx, ty)) = Some tile_id
        ∧ tilemap !! ty ≫= (.!! tx) = Some (tile_id + 1).
Proof. apply build_tile_map_Some_inv. Qed.

Lemma build_tile_map_entries_witness :
  ∃ tilemap,
    build_tile_map two_tone (extract_unique_tiles_from_map two_tone).1 = Some tilemap
    ∧ length tilemap = tiles_y two_tone
    ∧ Forall (λ row, length row = tiles_x two_tone) tilemap
    ∧ ∀ tx ty, tx < tiles_x two_tone → ty < tiles_y two_tone →
        ∃ tile_id,
          (extract_unique_tiles_from_map two_tone).1
            !! tile_hash (cell_tile two_tone (tx, ty)) = Some tile_id
          ∧ tilemap !! ty ≫= (.!! tx) = Some (tile_id + 1).
Proof.
  eexists. split; [apply build_tile_map_total|].
  apply (build_tile_map_entries two_tone). apply build_tile_map_total.
Defined.
(** X3. The table of one image serves another: if every block of
    [target] occurs in [source], then [build_tile_map target] succeeds
    with the table of [source], and every reference, minus one, indexes
    in the unique tiles of [source] the block of the target cell. *)
Theorem tilemap_over_other_image (source target : Image rgba) :
  (∀ tx ty, tx < tiles_x target → ty < tiles_y target →
     cell_tile target (tx, ty) ∈ cell_tiles source) →
  ∃ tilemap,
    build_tile_map target (extract_unique_tiles_from_map source).1 = Some tilemap
    ∧ ∀ tx ty, tx < tiles_x target → ty < tiles_y target →
        ∃ ref,
          tilemap !! ty ≫= (.!! tx) = Some ref
          ∧ 1 ≤ ref ≤ length (extract_unique_tiles_from_map source).2
          ∧ (extract_unique_tiles_from_map source).2 !! (ref - 1)
            = Some (cell_tile target (tx, ty)).
Proof.
  intros Hall.
  destruct (build_tile_map target (extract_unique_tiles_from_map source).1)
    as [tilemap|] eqn:Hmap.
  - exists tilemap. split; [done|]. intros tx ty Hx Hy.
    destruct (build_tile_map_Some_inv _ _ _ Hmap) as (_ & _ & Hcells).
    destruct (Hcells tx ty Hx Hy) as (i & Hi & Href).
    exists (i + 1). split; [done|].
    pose proof (unique_tile_of_block source _ i (shape_cell_tile _ _) Hi) as Hu.
    replace (i + 1 - 1) with i by lia. split; [|done].
    apply lookup_lt_Some in Hu. lia.
  - apply build_tile_map_None_iff in Hmap as (tx & ty & Hx & Hy & Hnone).
    specialize (Hall tx ty Hx Hy).
    apply (table_key_is_cell source _ (shape_cell_tile _ _)) in Hall as [i Hi].
    congruence.
Qed.

(** X4. If some block of [target] does not occur in [source], then
    [build_tile_map target] with the table of [source] raises KeyError. *)
Theorem tilemap_over_other_image_fails (source target : Image rgba) (tx ty : nat) :
  tx < tiles_x target → ty < tiles_y target →
  cell_tile target (tx, ty) ∉ cell_tiles source →
  build_tile_map target (extract_unique_tiles_from_map source).1 = None.
Proof.
  intros Hx Hy Hnot. apply build_tile_map_None_iff. exists tx, ty.
  split_and!; [done..|]. apply eq_None_not_Some. intros Hsome.
  by apply Hnot, (table_key_is_cell source _ (shape_cell_tile _ _)).
Qed.

Lemma tilemap_over_other_image_witness :
  ∃ tilemap,
    build_tile_map solid (extract_unique_tiles_from_map two_tone).1 = Some tilemap
    ∧ ∀ tx ty, tx < tiles_x solid → ty < tiles_y solid →
        ∃ ref,
          tilemap !! ty ≫= (.!! tx) = Some ref
          ∧ 1 ≤ ref ≤ length (extract_unique_tiles_from_map two_tone).2
          ∧ (extract_unique_tiles_from_map two_tone).2 !! (ref - 1)
            = Some (cell_tile solid (tx, ty)).
Proof.
  apply (tilemap_over_other_image two_tone solid). intros tx ty Hx Hy.
  assert (tx = 0 ∧ ty = 0) as [-> ->] by (vm_compute in Hx, Hy; lia).
  change (cell_tile solid (0, 0)) with (cell_tile two_tone (0, 0)).
  apply cell_tile_elem; vm_compute; lia.
Defined.

Lemma tilemap_over_other_image_fails_witness :
  build_tile_map two_tone (extract_unique_tiles_from_map solid).1 = None.
Proof.
  apply (tilemap_over_other_image_fails solid two_tone 1 0);
    [vm_compute; lia..|].
  intros (tx & ty & Hx & Hy & Heq)%cell_tiles_elem_inv.
  assert (tx = 0 ∧ ty = 0) as [-> ->] by (vm_compute in Hx, Hy; lia).
  vm_compute in Heq. discriminate.
Defined.

(** X5. The unique-tile list holds each block of the image exactly
    once: it has no duplicates, a block is in it exactly when it is the
    block of some grid cell, it is no longer than the number of cells,
    and it is empty exactly when the grid has no cell. *)
Theorem unique_tiles_are_the_distinct_blocks (map_image : Image rgba) :
  let unique_tiles := (extract_unique_tiles_from_map map_image).2 in
  NoDup unique_tiles
  ∧ (∀ block, block ∈ unique_tiles ↔ block ∈ cell_tiles map_image)
  ∧ length unique_tiles ≤ tiles_x map_image * tiles_y map_image
  ∧ (unique_tiles = [] ↔ tiles_x map_image = 0 ∨ tiles_y map_image = 0).
Proof.
  intros unique_tiles. subst unique_tiles.
  pose proof (dedup_invariant tile_hash (cell_tiles map_image)) as Hinv.
  pose proof (inv_NoDup_keys tile_hash _ _ Hinv) as Hnd.
  rewrite <- extract_unique_tiles_dedup in Hnd.
  assert (NoDup (extract_unique_tiles_from_map map_image).2) as Hnd'.
  { by eapply NoDup_fmap_1. }
  split_and!; [done|apply unique_tiles_member| |apply unique_tiles_empty_iff].
  transitivity (length (cell_tiles map_image)).
  - apply submseteq_length, NoDup_submseteq; [done|].
    intros t. apply unique_tiles_member.
  - unfold cell_tiles. rewrite length_fmap, length_grid. lia.
Qed.

(** X6. The table and the list are inverse to each other: the table
    maps [h] to [i] exactly when the tile at index [i] of the list has
    fingerprint [h]; the table has as many entries as the list. *)
Theorem table_inverts_unique_tiles (map_image : Image rgba) :
  let tile_to_id := (extract_unique_tiles_from_map map_image).1 in
  let unique_tiles := (extract_unique_tiles_from_map map_image).2 in
  (∀ h i, tile_to_id !! h = Some i ↔
          ∃ tile, unique_tiles !! i = Some tile ∧ tile_hash tile = h)
  ∧ size tile_to_id = length unique_tiles.
Proof.
  intros tile_to_id unique_tiles. subst tile_to_id unique_tiles.
  rewrite extract_unique_tiles_dedup.
  pose proof (dedup_invariant tile_hash (cell_tiles map_image)) as Hinv.
  split.
  - intros h i. rewrite (inv_table _ _ _ Hinv), list_lookup_fmap.
    destruct (_ !! i) as [t|]; simpl.
    + split; [intros [= <-]; eauto|]. by intros (t' & [= <-] & <-).
    + split; [done|]. by intros (t' & ? & _).
  - by apply (inv_size_table tile_hash _ _ Hinv).
Qed.
(** X7. A map whose cells all hold the same block yields one unique
    tile with ID 0, and a tilemap that is 1 everywhere. *)
Theorem uniform_map_has_one_tile (map_image : Image rgba) :
  0 < tiles_x map_image → 0 < tiles_y map_image →
  (∀ tx ty, tx < tiles_x map_image → ty < tiles_y map_image →
     cell_tile map_image (tx, ty) = cell_tile map_image (0, 0)) →
  extract_unique_tiles_from_map map_image
  = ({[tile_hash (cell_tile map_image (0, 0)) := 0]}, [cell_tile map_image (0, 0)])
  ∧ build_tile_map map_image (extract_unique_tiles_from_map map_image).1
    = Some (replicate (tiles_y map_image) (replicate (tiles_x map_image) 1)).
Proof.
  intros Hx Hy Hsame.
  assert (extract_unique_tiles_from_map map_image
    = ({[tile_hash (cell_tile map_image (0, 0)) := 0]}, [cell_tile map_image (0, 0)]))
    as Hscan.
  { rewrite extract_unique_tiles_dedup.
    assert (∃ l, cell_tiles map_image = cell_tile map_image (0, 0) :: l
                 ∧ Forall (λ u, tile_hash u = tile_hash (cell_tile map_image (0, 0))) l)
      as (l & Hl & Hall).
    { pose proof (cell_tiles_lookup map_image 0 0 Hx Hy) as H0. simpl in H0.
      destruct (cell_tiles map_image) as [|t l] eqn:E; [done|].
      injection H0 as ->. exists l. split; [done|].
      apply Forall_forall. intros u Hu.
      assert (u ∈ cell_tiles map_image) as Hin by (rewrite E; by right).
      apply cell_tiles_elem_inv in Hin as (tx & ty & Htx & Hty & ->).
      by rewrite Hsame. }
    rewrite Hl. by apply dedup_one_fingerprint. }
  split; [done|]. rewrite build_tile_map_total, Hscan. simpl. f_equal.
  apply list_eq. intros ty. rewrite list_lookup_fmap.
  destruct (decide (ty < tiles_y map_image)) as [Hty|Hty].
  - rewrite lookup_seq_lt, lookup_replicate_2 by done. simpl. f_equal.
    apply list_eq. intros tx. rewrite list_lookup_fmap.
    destruct (decide (tx < tiles_x map_image)) as [Htx|Htx].
    + rewrite lookup_seq_lt, lookup_replicate_2 by done. simpl.
      by rewrite Hsame, lookup_singleton_eq.
    + rewrite lookup_seq_ge by lia. symmetry. apply lookup_replicate_None. lia.
  - rewrite lookup_seq_ge by lia. symmetry. apply lookup_replicate_None. lia.
Qed.

(** X7 on [striped]: six cells with the same stripes, one unique tile. *)
Lemma uniform_map_has_one_tile_witness :
  extract_unique_tiles_from_map striped
  = ({[tile_hash (cell_tile striped (0, 0)) := 0]}, [cell_tile striped (0, 0)])
  ∧ build_tile_map striped (extract_unique_tiles_from_map striped).1
    = Some (replicate (tiles_y striped) (replicate (tiles_x striped) 1)).
Proof.
  apply (uniform_map_has_one_tile striped); [vm_compute; lia..|].
  intros tx ty Hx Hy.
  assert (tx < 3 ∧ ty < 2) as [Hx' Hy'] by (vm_compute in Hx, Hy; lia).
  destruct tx as [|[|[|tx]]]; [| | |lia];
    (destruct ty as [|[|ty]]; [| |lia]); vm_compute; reflexivity.
Defined.

(** X8. [create_tileset_image] fails (division by zero in the row
    count) exactly on the empty list of tiles. *)
Theorem create_tileset_image_empty (unique_tiles : list ndarray) :
  create_tileset_image unique_tiles = None ↔ unique_tiles = [].
Proof.
  split.
  - intros Hnone. destruct unique_tiles as [|t ts]; [done|].
    destruct (create_tileset_image_is_Some (t :: ts)) as (atlas & r & Hsome & _);
      [simpl; lia|]. congruence.
  - by intros ->.
Qed.

(** X9. The run of [reconstruct_map] fails exactly when the map is
    narrower or lower than one tile. *)
Theorem main_fails_below_one_tile (map_image : Image rgba) :
  main map_image = None ↔
  width map_image < TILE_SIZE ∨ height map_image < TILE_SIZE.
Proof.
  destruct (tiles_zero map_image) as [Hzx Hzy].
  rewrite <- Hzx, <- Hzy. split; [|apply main_None_small].
  intros Hnone.
  destruct (decide (tiles_x map_image = 0)) as [|Hx]; [by left|].
  destruct (decide (tiles_y map_image = 0)) as [|Hy]; [by right|].
  destruct (main_success map_image) as (? & ? & ? & ? & ? & _ & _ & _ & Hmain);
    [lia..|]. congruence.
Qed.

(** X10. [generate_tiled_json] fails exactly when the tilemap has no
    row ([tilemap[0]]) or the column count is zero (the integer
    division of [imageheight]). *)
Theorem generate_tiled_json_fails (tilemap : list (list nat)) (path : string)
    (tiles_per_row num_tiles : nat) :
  generate_tiled_json tilemap path tiles_per_row num_tiles = None ↔
  tilemap = [] ∨ tiles_per_row = 0.
Proof.
  unfold generate_tiled_json. destruct tilemap as [|row0 rows]; simpl.
  - split; [by left|done].
  - case_guard; simpl.
    + split; [done|]. intros [?|?]; done.
    + split; [right; lia|done].
Qed.

(** X11. For a tilemap whose rows all have [w] entries, the document
    has width [w] and height the number of rows, on the map and on the
    layer, its data has width times height entries, and the entry at
    index [y * w + x] is [tilemap[y][x]]. *)
Theorem generate_tiled_json_row_major (tilemap : list (list nat)) (path : string)
    (tiles_per_row num_tiles w : nat) (doc : TiledMap) :
  generate_tiled_json tilemap path tiles_per_row num_tiles = Some doc →
  Forall (λ row, length row = w) tilemap →
  ∃ layer,
    layers doc = [layer]
    ∧ map_width doc = w ∧ map_height doc = length tilemap
    ∧ layer_width layer = w ∧ layer_height layer = length tilemap
    ∧ length (layer_data layer) = map_height doc * map_width doc
    ∧ ∀ x y, x < w → layer_data layer !! (y * w + x) = tilemap !! y ≫= (.!! x).
Proof.
  intros Hdoc Hrect. unfold generate_tiled_json in Hdoc.
  destruct (tilemap !! 0) as [row0|] eqn:Hrow0; [|done].
  cbn [mbind option_bind] in Hdoc. case_guard; [|done].
  cbn [mbind option_bind] in Hdoc. injection Hdoc as <-.
  assert (length row0 = w) as Hw.
  { eapply Forall_forall in Hrect; [done|]. by eapply list_elem_of_lookup_2. }
  eexists. cbn [layers map_width map_height layer_width layer_height layer_data].
  rewrite fold_left_app_concat. simpl.
  split_and!; [done..| |].
  - rewrite Hw. by apply length_concat_rect.
  - intros x y Hx. by apply concat_lookup_rect.
Qed.

Lemma generate_tiled_json_row_major_witness :
  ∃ doc layer,
    generate_tiled_json [[1; 2]; [2; 1]] "tileset.png" 2 2 = Some doc
    ∧ layers doc = [layer]
    ∧ map_width doc = 2 ∧ map_height doc = length [[1; 2]; [2; 1]]
    ∧ layer_width layer = 2 ∧ layer_height layer = length [[1; 2]; [2; 1]]
    ∧ length (layer_data layer) = map_height doc * map_width doc
    ∧ ∀ x y, x < 2 →
        layer_data layer !! (y * 2 + x) = [[1; 2]; [2; 1]] !! y ≫= (.!! x).
Proof.
  eexists. 
  destruct (generate_tiled_json_row_major [[1; 2]; [2; 1]] "tileset.png" 2 2 2 _
              eq_refl) as (layer & H).
  { repeat constructor. }
  exists layer. split; [reflexivity|exact H].
Defined.

(** X12. The atlas grid is square-ish: the row count is the column
    count or one less, every tile has a slot, and fewer than one row of
    slots is unused. *)
Theorem atlas_is_squarish (unique_tiles : list ndarray) (atlas : Image rgba)
    (columns rows : nat) :
  create_tileset_image unique_tiles = Some (atlas, (columns, rows)) →
  rows ≤ columns ≤ rows + 1
  ∧ length unique_tiles ≤ columns * rows < length unique_tiles + columns.
Proof.
  intros Himg.
  assert (0 < length unique_tiles) as Hn.
  { destruct unique_tiles; [done|simpl; lia]. }
  destruct (create_tileset_image_is_Some unique_tiles Hn)
    as (atlas' & r & Himg' & Hr & _).
  rewrite Himg in Himg'. injection Himg' as -> -> ->.
  destruct (ceil_sqrt_spec _ Hn) as (Hc & Hlo & Hhi).
  apply ceil_div_spec in Hr as (_ & Hle & Hlt).
  set (c := ceil_sqrt (length unique_tiles)) in *.
  split_and!; nia.
Qed.

Lemma atlas_is_squarish_witness :
  ∃ atlas columns rows,
    create_tileset_image (extract_unique_tiles_from_map two_tone).2
      = Some (atlas, (columns, rows))
    ∧ rows ≤ columns ≤ rows + 1
    ∧ length (extract_unique_tiles_from_map two_tone).2 ≤ columns * rows
      < length (extract_unique_tiles_from_map two_tone).2 + columns.
Proof.
  destruct (create_tileset_image_is_Some (extract_unique_tiles_from_map two_tone).2)
    as (atlas & r & Himg & _); [vm_compute; lia|].
  eexists atlas, _, r. split; [exact Himg|].
  apply (atlas_is_squarish _ atlas _ r Himg).
Defined.
(** X13. The pixels of the atlas slots past the last tile keep the
    transparent fill [(0, 0, 0, 0)] of [Image.new]. *)
Theorem atlas_unused_slots_transparent (unique_tiles : list ndarray)
    (atlas : Image rgba) (columns rows x y : nat) :
  Forall (shape TILE_SIZE TILE_SIZE) unique_tiles →
  create_tileset_image unique_tiles = Some (atlas, (columns, rows)) →
  x < width atlas → y < height atlas →
  length unique_tiles ≤ y / TILE_SIZE * columns + x / TILE_SIZE →
  getpixel atlas x y = RGBA x00 x00 x00 x00.
Proof.
  intros Hsh Himg Hx Hy Hslot. unfold create_tileset_image in Himg.
  destruct (ceil_div _ _) as [r'|] eqn:Hr; [|done].
  cbn [mbind option_bind] in Himg. injection Himg as <- <- <-.
  apply ceil_div_spec in Hr as (Hpos & _).
  set (c := ceil_sqrt (length unique_tiles)) in *.
  set (init := new _ _) in *.
  change (fold_left _ (enumerate unique_tiles) init)
    with (fold_left (paste_tile c) (enumerate unique_tiles) init) in *.
  unfold getpixel. destruct (paste_loop_size c unique_tiles init) as [Hw Hh].
  rewrite Hw, Hh in *.
  replace (_ && _) with true
    by (symmetry; rewrite andb_true_iff, !Nat.ltb_lt; lia).
  rewrite paste_loop_outside; [done|done|].
  intros i Hi [[Hx1 Hx2] [Hy1 Hy2]]. pose proof TILE_SIZE_pos as Hts.
  assert (x / TILE_SIZE = i mod c) as Hxd.
  { symmetry. apply (Nat.div_unique x TILE_SIZE _ (x - i mod c * TILE_SIZE)); lia. }
  assert (y / TILE_SIZE = i / c) as Hyd.
  { symmetry. apply (Nat.div_unique y TILE_SIZE _ (y - i / c * TILE_SIZE)); lia. }
  pose proof (Nat.div_mod i c ltac:(lia)). rewrite Hxd, Hyd in Hslot. lia.
Qed.

Lemma atlas_unused_slots_transparent_witness :
  ∃ atlas columns rows,
    create_tileset_image (replicate 3 (cell_tile solid (0, 0)))
      = Some (atlas, (columns, rows))
    ∧ getpixel atlas 16 16 = RGBA x00 x00 x00 x00.
Proof.
  destruct (create_tileset_image_is_Some (replicate 3 (cell_tile solid (0, 0))))
    as (atlas & r & Himg & Hr & Hw & Hh); [simpl; lia|].
  assert (r = 2) as -> by (vm_compute in Hr; congruence).
  exists atlas, (ceil_sqrt (length (replicate 3 (cell_tile solid (0, 0))))), 2.
  split; [exact Himg|].
  apply (atlas_unused_slots_transparent (replicate 3 (cell_tile solid (0, 0)))
           atlas (ceil_sqrt (length (replicate 3 (cell_tile solid (0, 0))))) 2 16 16).
  - repeat constructor; apply shape_cell_tile.
  - exact Himg.
  - rewrite Hw. vm_compute. lia.
  - rewrite Hh. vm_compute. lia.
  - vm_compute. lia.
Defined.
(** X14. In a run that succeeds the document agrees with the scan: map
    and layer are [tiles_x] by [tiles_y], the data has one entry per
    cell, [tilecount] is the number of unique tiles, which is between 1
    and the number of cells, and [columns * TILE_SIZE] and [imagewidth]
    are the width of the atlas that was saved. *)
Theorem exported_map_dimensions (map_image : Image rgba) (out : Output) :
  main map_image = Some out →
  ∃ layer tileset,
    layers (overworld_json out) = [layer]
    ∧ tilesets (overworld_json out) = [tileset]
    ∧ map_width (overworld_json out) = tiles_x map_image
    ∧ map_height (overworld_json out) = tiles_y map_image
    ∧ layer_width layer = tiles_x map_image
    ∧ layer_height layer = tiles_y map_image
    ∧ length (layer_data layer) = tiles_y map_image * tiles_x map_image
    ∧ tilecount tileset = unique_count out
    ∧ unique_count out = length (extract_unique_tiles_from_map map_image).2
    ∧ 1 ≤ unique_count out ≤ tiles_x map_image * tiles_y map_image
    ∧ columns tileset * TILE_SIZE = width (tileset_png out)
    ∧ imagewidth tileset = width (tileset_png out).
Proof.
  intros (Hx & Hy & tilemap & atlas & c & r & doc & Hmap & Hatlas & Hdoc & ->)%main_Some_inv.
  destruct (generate_tiled_json_inv _ _ _ _ _ Hdoc)
    as (row0 & layer & tileset & Hrow0 & _ & Hlayers & Htilesets & Hw & Hh
        & Hlw & Hlh & Hdata & Hcols & Hcount & _ & Hiw & _).
  destruct (build_tile_map_Some_inv _ _ _ Hmap) as (Hlen & Hrows & _).
  assert (length row0 = tiles_x map_image) as Hrow.
  { eapply Forall_forall in Hrows; [done|]. by eapply list_elem_of_lookup_2. }
  pose proof (unique_tiles_nonempty map_image Hx Hy) as Hn.
  destruct (create_tileset_image_is_Some _ Hn) as (atlas' & r' & Hatlas' & _ & Hwa & _).
  rewrite Hatlas in Hatlas'. injection Hatlas' as -> -> ->.
  exists layer, tileset. cbn [overworld_json unique_count tileset_png].
  split_and!; try congruence.
  - rewrite Hdata, (length_concat_rect _ _ Hrows). lia.
  - lia.
  - transitivity (length (cell_tiles map_image)).
    + apply submseteq_length, NoDup_submseteq.
      * eapply NoDup_fmap_1. rewrite extract_unique_tiles_dedup.
        apply (inv_NoDup_keys tile_hash _ _ (dedup_invariant _ _)).
      * intros t. apply unique_tiles_member.
    + unfold cell_tiles. rewrite length_fmap, length_grid. lia.
Qed.

Lemma exported_map_dimensions_witness :
  ∃ out layer tileset,
    main two_tone = Some out
    ∧ layers (overworld_json out) = [layer]
    ∧ tilesets (overworld_json out) = [tileset]
    ∧ map_width (overworld_json out) = tiles_x two_tone
    ∧ map_height (overworld_json out) = tiles_y two_tone
    ∧ layer_width layer = tiles_x two_tone
    ∧ layer_height layer = tiles_y two_tone
    ∧ length (layer_data layer) = tiles_y two_tone * tiles_x two_tone
    ∧ tilecount tileset = unique_count out
    ∧ unique_count out = length (extract_unique_tiles_from_map two_tone).2
    ∧ 1 ≤ unique_count out ≤ tiles_x two_tone * tiles_y two_tone
    ∧ columns tileset * TILE_SIZE = width (tileset_png out)
    ∧ imagewidth tileset = width (tileset_png out).
Proof.
  destruct (main_success two_tone) as (? & ? & ? & ? & ? & _ & _ & _ & Hmain);
    [vm_compute; lia..|].
  destruct (exported_map_dimensions two_tone _ Hmain) as (layer & tileset & H).
  eexists _, layer, tileset. split; [exact Hmain|exact H].
Defined.

(** X15. In a run that succeeds every reference of the data array, less
    [firstgid], is a tile index below [tilecount] whose slot lies inside
    the atlas image that was saved. *)
Theorem exported_references_address_atlas (map_image : Image rgba) (out : Output) :
  main map_image = Some out →
  ∃ layer tileset,
    layers (overworld_json out) = [layer]
    ∧ tilesets (overworld_json out) = [tileset]
    ∧ Forall (λ ref,
        let tile_id := ref - firstgid tileset in
        firstgid tileset ≤ ref
        ∧ tile_id < tilecount tileset
        ∧ tile_id mod columns tileset * TILE_SIZE + TILE_SIZE
          ≤ width (tileset_png out)
        ∧ tile_id / columns tileset * TILE_SIZE + TILE_SIZE
          ≤ height (tileset_png out))
      (layer_data layer).
Proof.
  intros (Hx & Hy & tilemap & atlas & c & r & doc & Hmap & Hatlas & Hdoc & ->)%main_Some_inv.
  destruct (generate_tiled_json_inv _ _ _ _ _ Hdoc)
    as (row0 & layer & tileset & _ & _ & Hlayers & Htilesets & _ & _
        & _ & _ & Hdata & Hcols & Hcount & Hgid & _).
  exists layer, tileset. cbn [overworld_json tileset_png].
  split_and!; [done..|]. rewrite Hdata, Hcols, Hcount, Hgid.
  destruct (tilemap_data_range map_image tilemap Hmap) as [_ Hrange].
  pose proof (unique_tiles_nonempty map_image Hx Hy) as Hn.
  destruct (create_tileset_image_is_Some _ Hn)
    as (atlas' & r' & Hatlas' & Hr & Hwa & Hha).
  rewrite Hatlas in Hatlas'. injection Hatlas' as -> -> ->.
  apply ceil_div_spec in Hr as (Hc & Hle & _).
  set (c := ceil_sqrt _) in *.
  eapply Forall_impl; [exact Hrange|]. intros ref [Hlo Hhi]. cbv zeta.
  pose proof (Nat.mod_upper_bound (ref - 1) c ltac:(lia)).
  assert ((ref - 1) / c < r').
  { apply Nat.Div0.div_lt_upper_bound. lia. }
  rewrite Hwa, Hha. split_and!; [lia|lia|nia|nia].
Qed.

Lemma exported_references_address_atlas_witness :
  ∃ out layer tileset,
    main two_tone = Some out
    ∧ layers (overworld_json out) = [layer]
    ∧ tilesets (overworld_json out) = [tileset]
    ∧ Forall (λ ref,
        let tile_id := ref - firstgid tileset in
        firstgid tileset ≤ ref
        ∧ tile_id < tilecount tileset
        ∧ tile_id mod columns tileset * TILE_SIZE + TILE_SIZE
          ≤ width (tileset_png out)
        ∧ tile_id / columns tileset * TILE_SIZE + TILE_SIZE
          ≤ height (tileset_png out))
      (layer_data layer).
Proof.
  destruct (main_success two_tone) as (? & ? & ? & ? & ? & _ & _ & _ & Hmain);
    [vm_compute; lia..|].
  destruct (exported_references_address_atlas two_tone _ Hmain)
    as (layer & tileset & H).
  eexists _, layer, tileset. split; [exact Hmain|exact H].
Defined.

(** X16. The screen records tile the map: every tile position of the
    [SCREENS_WIDE * SCREEN_WIDTH_TILES] by [SCREENS_TALL *
    SCREEN_HEIGHT_TILES] map lies in the rectangle of exactly one
    record, the one with id [gy // SCREEN_HEIGHT_TILES * SCREENS_WIDE +
    gx // SCREEN_WIDTH_TILES]. *)
Theorem screens_partition_the_map (gx gy : nat) :
  gx < SCREENS_WIDE * SCREEN_WIDTH_TILES →
  gy < SCREENS_TALL * SCREEN_HEIGHT_TILES →
  ∃ s,
    s ∈ screens generate_screen_metadata
    ∧ id s = gy / SCREEN_HEIGHT_TILES * SCREENS_WIDE + gx / SCREEN_WIDTH_TILES
    ∧ (tile_x s ≤ gx < tile_x s + width_tiles s
       ∧ tile_y s ≤ gy < tile_y s + height_tiles s)
    ∧ ∀ s', s' ∈ screens generate_screen_metadata →
        tile_x s' ≤ gx < tile_x s' + width_tiles s' →
        tile_y s' ≤ gy < tile_y s' + height_tiles s' →
        s' = s.
Proof.
  intros Hx Hy. rewrite screens_grid.
  assert (0 < SCREEN_WIDTH_TILES) as Hw by (unfold SCREEN_WIDTH_TILES; lia).
  assert (0 < SCREEN_HEIGHT_TILES) as Hh by (unfold SCREEN_HEIGHT_TILES; lia).
  pose proof (Nat.div_mod gx SCREEN_WIDTH_TILES ltac:(lia)) as Hdx.
  pose proof (Nat.mod_upper_bound gx SCREEN_WIDTH_TILES ltac:(lia)) as Hmx.
  pose proof (Nat.div_mod gy SCREEN_HEIGHT_TILES ltac:(lia)) as Hdy.
  pose proof (Nat.mod_upper_bound gy SCREEN_HEIGHT_TILES ltac:(lia)) as Hmy.
  exists (screen_record (gx / SCREEN_WIDTH_TILES, gy / SCREEN_HEIGHT_TILES)).
  split_and!.
  - apply list_elem_of_fmap_2, elem_of_grid. split.
    + apply Nat.Div0.div_lt_upper_bound. lia.
    + apply Nat.Div0.div_lt_upper_bound. lia.
  - done.
  - cbn [screen_record tile_x width_tiles fst snd]. lia.
  - cbn [screen_record tile_x width_tiles fst snd]. lia.
  - cbn [screen_record tile_y height_tiles fst snd]. lia.
  - cbn [screen_record tile_y height_tiles fst snd]. lia.
  - intros s' ([sx sy] & -> & _)%list_elem_of_fmap.
    cbn [screen_record tile_x tile_y width_tiles height_tiles fst snd].
    intros Hsx Hsy.
    assert (sx = gx / SCREEN_WIDTH_TILES) as ->.
    { apply (Nat.div_unique gx SCREEN_WIDTH_TILES sx (gx - sx * SCREEN_WIDTH_TILES)); lia. }
    assert (sy = gy / SCREEN_HEIGHT_TILES) as ->.
    { apply (Nat.div_unique gy SCREEN_HEIGHT_TILES sy (gy - sy * SCREEN_HEIGHT_TILES)); lia. }
    done.
Qed.

Lemma screens_partition_the_map_witness :
  ∃ s,
    s ∈ screens generate_screen_metadata
    ∧ id s = 30 / SCREEN_HEIGHT_TILES * SCREENS_WIDE + 100 / SCREEN_WIDTH_TILES
    ∧ (tile_x s ≤ 100 < tile_x s + width_tiles s
       ∧ tile_y s ≤ 30 < tile_y s + height_tiles s)
    ∧ ∀ s', s' ∈ screens generate_screen_metadata →
        tile_x s' ≤ 100 < tile_x s' + width_tiles s' →
        tile_y s' ≤ 30 < tile_y s' + height_tiles s' →
        s' = s.
Proof.
  apply (screens_partition_the_map 100 30);
    unfold SCREENS_WIDE, SCREENS_TALL, SCREEN_WIDTH_TILES, SCREEN_HEIGHT_TILES; lia.
Defined.
End ReconstructMapExtras.

Module CreateTilesetExtras.
Import PIL CreateTileset CreateTilesetSpec CreateTilesetFacts CreateTilesetPaste CreateTilesetMore Samples.


(** X18. Segmented addressing decodes: the pixel [(dx, dy)] of the tile
    of cell [(screen_x, screen_y, tile_x, tile_y)] is the pixel [(x, y)]
    of the source from which division by the screen span gives back the
    screen, and the remainder the tile and the offset; the remainder is
    below the screen size, so no separator pixel is ever read. *)
Theorem pixel_decodes_to_cell {P} `{Mode P} (img : Image P)
    (screen_x screen_y tile_x tile_y dx dy : nat) :
  tile_x < SCREEN_TILES_X → tile_y < SCREEN_TILES_Y →
  dx < TILE_SIZE → dy < TILE_SIZE →
  ∃ x y,
    load (extract_tile img screen_x screen_y tile_x tile_y) dx dy
      = getpixel img x y
    ∧ x / (SCREEN_WIDTH_PX + SEPARATOR_WIDTH) = screen_x
    ∧ y / (SCREEN_HEIGHT_PX + SEPARATOR_WIDTH) = screen_y
    ∧ x mod (SCREEN_WIDTH_PX + SEPARATOR_WIDTH) < SCREEN_WIDTH_PX
    ∧ y mod (SCREEN_HEIGHT_PX + SEPARATOR_WIDTH) < SCREEN_HEIGHT_PX
    ∧ x mod (SCREEN_WIDTH_PX + SEPARATOR_WIDTH) / TILE_SIZE = tile_x
    ∧ y mod (SCREEN_HEIGHT_PX + SEPARATOR_WIDTH) / TILE_SIZE = tile_y
    ∧ x mod (SCREEN_WIDTH_PX + SEPARATOR_WIDTH) mod TILE_SIZE = dx
    ∧ y mod (SCREEN_HEIGHT_PX + SEPARATOR_WIDTH) mod TILE_SIZE = dy.
Proof.
  intros Htx Hty Hdx Hdy.
  destruct (axis_decode SCREEN_TILES_X screen_x tile_x dx Htx Hdx)
    as (Hx1 & _ & Hx2 & Hx3 & Hx4).
  destruct (axis_decode SCREEN_TILES_Y screen_y tile_y dy Hty Hdy)
    as (Hy1 & _ & Hy2 & Hy3 & Hy4).
  exists (screen_x * (SCREEN_TILES_X * TILE_SIZE + SEPARATOR_WIDTH)
          + tile_x * TILE_SIZE + dx),
         (screen_y * (SCREEN_TILES_Y * TILE_SIZE + SEPARATOR_WIDTH)
          + tile_y * TILE_SIZE + dy).
  split_and!; done.
Qed.

Lemma pixel_decodes_to_cell_witness :
  ∃ x y,
    load (extract_tile tiny 1 0 2 3) 4 5 = getpixel tiny x y
    ∧ x / (SCREEN_WIDTH_PX + SEPARATOR_WIDTH) = 1
    ∧ y / (SCREEN_HEIGHT_PX + SEPARATOR_WIDTH) = 0
    ∧ x mod (SCREEN_WIDTH_PX + SEPARATOR_WIDTH) < SCREEN_WIDTH_PX
    ∧ y mod (SCREEN_HEIGHT_PX + SEPARATOR_WIDTH) < SCREEN_HEIGHT_PX
    ∧ x mod (SCREEN_WIDTH_PX + SEPARATOR_WIDTH) / TILE_SIZE = 2
    ∧ y mod (SCREEN_HEIGHT_PX + SEPARATOR_WIDTH) / TILE_SIZE = 3
    ∧ x mod (SCREEN_WIDTH_PX + SEPARATOR_WIDTH) mod TILE_SIZE = 4
    ∧ y mod (SCREEN_HEIGHT_PX + SEPARATOR_WIDTH) mod TILE_SIZE = 5.
Proof.
  apply (pixel_decodes_to_cell tiny 1 0 2 3 4 5);
    unfold SCREEN_TILES_X, SCREEN_TILES_Y, TILE_SIZE; lia.
Defined.



Section with_source.
Context {P : Type} `{Mode P}.
Variable md5 : bytes → string.
Variable to_rgb : P → rgb.

(** X20. The dictionary of [create_tileset] has exactly the keys of
    [tile_order], which are exactly the fingerprints of the scanned
    cells, and the tile stored under a key has that fingerprint and is
    the tile of the first cell of the scan with it. *)
Theorem dictionary_holds_first_occurrences (img : Image P) (h : string) :
  let st := extract_all md5 img in
  (is_Some (unique_tiles st !! h) ↔ h ∈ tile_order st)
  ∧ (h ∈ tile_order st ↔
     ∃ c, c ∈ scan_cells ∧ tile_hash md5 (cell_tile img c) = h)
  ∧ ∀ tile, unique_tiles st !! h = Some tile →
      tile_hash md5 tile = h
      ∧ ∃ p c, scan_cells !! p = Some c ∧ tile = cell_tile img c
          ∧ ∀ q c', q < p → scan_cells !! q = Some c' →
              tile_hash md5 (cell_tile img c') ≠ h.
Proof.
  intros st. subst st. rewrite extract_all_fold. split_and!.
  - apply scan_dictionary_dom.
  - apply scan_tile_order_cells.
  - apply scan_dictionary.
Qed.

(** X21. What a run of [create_tileset] prints: the warning exactly when
    the size of the image is not the expected one, the count of all
    configured cells as processed, the number of unique tiles, which is
    between 1 and that count, and the save message last. *)
Theorem run_report (img : Image P) :
  let run := main md5 to_rgb img in
  (Warning ∈ stdout run ↔ image_size img ≠ expected_size)
  ∧ Processed (SCREENS_X * SCREENS_Y * SCREEN_TILES_X * SCREEN_TILES_Y)
      ∈ stdout run
  ∧ Found (length (tile_order (result run))) ∈ stdout run
  ∧ 1 ≤ length (tile_order (result run))
      ≤ SCREENS_X * SCREENS_Y * SCREEN_TILES_X * SCREEN_TILES_Y
  ∧ last (stdout run) = Some Saved.
Proof.
  intros run. subst run.
  destruct (paste_loop_is_Some md5 to_rgb img
    (new (OUTPUT_TILES_PER_ROW * TILE_SIZE,
          (size (unique_tiles (extract_all md5 img)) + OUTPUT_TILES_PER_ROW - 1)
            / OUTPUT_TILES_PER_ROW * TILE_SIZE) (RGB x00 x00 x00))) as [atlas Hatlas].
  pose proof (processed_extract_all md5 img) as Hproc.
  pose proof (scan_counts md5 img scan_cells) as (_ & Hsize & Hle & Hpos).
  rewrite <- extract_all_fold in Hsize, Hle, Hpos.
  specialize (Hpos scan_cells_nonempty). rewrite length_scan_cells in Hle.
  unfold main. cbv zeta. cbn [stdout result output_img].
  revert Hatlas Hproc Hsize Hle Hpos. generalize (extract_all md5 img).
  intros st Hatlas Hproc Hsize Hle Hpos. rewrite Hatlas, Hproc, Hsize.
  cbv beta iota.
  pose proof (mismatch_test (width img) (height img) expected_size.1 expected_size.2)
    as Htest.
  change (expected_size.1, expected_size.2) with expected_size in Htest.
  change (width img, height img) with (image_size img) in Htest.
  unfold expected_size in Htest at 1 2. cbn [fst snd] in Htest.
  destruct (negb _ || negb _) eqn:Hm.
  - split_and!.
    + split; [intros _; by apply Htest|].
      intros _. rewrite !elem_of_app, !elem_of_cons. tauto.
    + rewrite !elem_of_app, !elem_of_cons. tauto.
    + rewrite !elem_of_app, !elem_of_cons. tauto.
    + lia.
    + lia.
    + by rewrite last_snoc.
  - split_and!.
    + split.
      * rewrite !elem_of_app, !elem_of_cons, !elem_of_nil.
        intros [[[[[[?|[?|[]]]|[?|[]]]|[?|[]]]|[?|[?|[]]]]|[?|[]]]|[?|[]]];
          discriminate.
      * intros Hne. apply Htest in Hne. discriminate.
    + rewrite !elem_of_app, !elem_of_cons. tauto.
    + rewrite !elem_of_app, !elem_of_cons. tauto.
    + lia.
    + lia.
    + by rewrite last_snoc.
Qed.

(** X22. The output image of [create_tileset]: it is always produced,
    [OUTPUT_TILES_PER_ROW] tiles wide and [ceil(count /
    OUTPUT_TILES_PER_ROW)] tiles high; the tile of the [i]-th key of
    [tile_order] is pasted, converted to RGB, at [((i % columns) *
    TILE_SIZE, (i // columns) * TILE_SIZE)], and the slots past the last
    tile stay black. *)
Theorem fixed_columns_atlas (img : Image P) :
  let run := main md5 to_rgb img in
  let count := length (tile_order (result run)) in
  let rows := (count + OUTPUT_TILES_PER_ROW - 1) / OUTPUT_TILES_PER_ROW in
  ∃ atlas,
    output_img run = Some atlas
    ∧ width atlas = OUTPUT_TILES_PER_ROW * TILE_SIZE
    ∧ height atlas = rows * TILE_SIZE
    ∧ count ≤ rows * OUTPUT_TILES_PER_ROW < count + OUTPUT_TILES_PER_ROW
    ∧ (∀ i h tile dx dy,
         tile_order (result run) !! i = Some h →
         unique_tiles (result run) !! h = Some tile →
         dx < TILE_SIZE → dy < TILE_SIZE →
         getpixel atlas (i mod OUTPUT_TILES_PER_ROW * TILE_SIZE + dx)
                        (i / OUTPUT_TILES_PER_ROW * TILE_SIZE + dy)
         = to_rgb (load tile dx dy))
    ∧ (∀ x y,
         x < width atlas → y < height atlas →
         count ≤ y / TILE_SIZE * OUTPUT_TILES_PER_ROW + x / TILE_SIZE →
         getpixel atlas x y = RGB x00 x00 x00).
Proof.
  intros run count rows. subst run count rows.
  change (result (main md5 to_rgb img)) with (extract_all md5 img).
  rewrite main_output_img.
  pose proof (scan_counts md5 img scan_cells) as (_ & Hsize & _ & _).
  rewrite <- extract_all_fold in Hsize. rewrite Hsize.
  assert (Htiles : ∀ h t, unique_tiles (extract_all md5 img) !! h = Some t →
            width t = TILE_SIZE ∧ height t = TILE_SIZE).
  { intros h t. rewrite extract_all_fold. apply scan_dictionary_tile_size. }
  destruct (paste_loop_is_Some md5 to_rgb img
    (new (OUTPUT_TILES_PER_ROW * TILE_SIZE,
          (size (unique_tiles (extract_all md5 img)) + OUTPUT_TILES_PER_ROW - 1)
            / OUTPUT_TILES_PER_ROW * TILE_SIZE) (RGB x00 x00 x00))) as [atlas Hatlas].
  rewrite Hsize in Hatlas.
  change (for_each_raising _ ?l ?init = Some atlas)
    with (for_each_raising (paste_step to_rgb (unique_tiles (extract_all md5 img)))
            l init = Some atlas) in Hatlas.
  revert Htiles Hatlas. generalize (extract_all md5 img). intros st Htiles Hatlas.
  rewrite Hatlas. exists atlas.
  destruct (output_paste_loop to_rgb (unique_tiles st) Htiles _ _ _ Hatlas)
    as (Hw & Hh & Hin & Hout).
  cbn [new width height fst snd] in Hw, Hh.
  assert (0 < TILE_SIZE) as Hts by (unfold TILE_SIZE; lia).
  assert (0 < OUTPUT_TILES_PER_ROW) as Hc by (unfold OUTPUT_TILES_PER_ROW; lia).
  set (n := length (tile_order st)) in *.
  set (rows := (n + OUTPUT_TILES_PER_ROW - 1) / OUTPUT_TILES_PER_ROW) in *.
  assert (n ≤ rows * OUTPUT_TILES_PER_ROW < n + OUTPUT_TILES_PER_ROW) as Hrows.
  { pose proof (Nat.div_mod (n + OUTPUT_TILES_PER_ROW - 1) OUTPUT_TILES_PER_ROW
                  ltac:(lia)) as Hdm.
    pose proof (Nat.mod_upper_bound (n + OUTPUT_TILES_PER_ROW - 1)
                  OUTPUT_TILES_PER_ROW ltac:(lia)).
    fold rows in Hdm. lia. }
  split; [reflexivity|]. split; [exact Hw|]. split; [exact Hh|].
  split; [exact Hrows|]. split.
  - intros i h tile dx dy Hi Ht Hdx Hdy. unfold getpixel. rewrite Hw, Hh.
    pose proof (lookup_lt_Some _ _ _ Hi) as Hlt. fold n in Hlt.
    pose proof (Nat.mod_upper_bound i OUTPUT_TILES_PER_ROW ltac:(lia)).
    assert (i / OUTPUT_TILES_PER_ROW < rows).
    { apply Nat.Div0.div_lt_upper_bound. lia. }
    replace (_ && _) with true; [by eapply Hin|].
    symmetry. rewrite andb_true_iff, !Nat.ltb_lt. nia.
  - intros x y Hx Hy Hfree. unfold getpixel.
    replace (_ && _) with true
      by (symmetry; rewrite andb_true_iff, !Nat.ltb_lt; lia).
    rewrite Hout; [done|]. intros i Hi [Hix Hiy]. fold n in Hi.
    pose proof (slot_of_pixel TILE_SIZE OUTPUT_TILES_PER_ROW i x y Hts Hc Hix Hiy).
    lia.
Qed.

End with_source.

Lemma dictionary_holds_first_occurrences_witness :
  ∃ h tile,
    unique_tiles (extract_all first_byte_digest tiny) !! h = Some tile
    ∧ tile_hash first_byte_digest tile = h
    ∧ ∃ p c, scan_cells !! p = Some c ∧ tile = cell_tile tiny c
        ∧ ∀ q c', q < p → scan_cells !! q = Some c' →
            tile_hash first_byte_digest (cell_tile tiny c') ≠ h.
Proof.
  destruct (first_entry_exists first_byte_digest tiny) as (h & tile & _ & Ht).
  exists h, tile. split; [exact Ht|].
  exact (proj2 (proj2 (dictionary_holds_first_occurrences first_byte_digest tiny h))
           tile Ht).
Defined.

Lemma fixed_columns_atlas_witness :
  ∃ atlas h tile,
    output_img (main first_byte_digest keep_rgb tiny) = Some atlas
    ∧ tile_order (extract_all first_byte_digest tiny) !! 0 = Some h
    ∧ unique_tiles (extract_all first_byte_digest tiny) !! h = Some tile
    ∧ getpixel atlas (0 mod OUTPUT_TILES_PER_ROW * TILE_SIZE + 3)
                     (0 / OUTPUT_TILES_PER_ROW * TILE_SIZE + 5)
      = keep_rgb (load tile 3 5).
Proof.
  destruct (first_entry_exists first_byte_digest tiny) as (h & tile & Hh & Ht).
  destruct (fixed_columns_atlas first_byte_digest keep_rgb tiny)
    as (atlas & Hatlas & _ & _ & _ & Hin & _).
  exists atlas, h, tile. split; [exact Hatlas|]. split; [exact Hh|].
  split; [exact Ht|].
  apply (Hin 0 h tile 3 5 Hh Ht); unfold TILE_SIZE; lia.
Defined.

End CreateTilesetExtras.
